(** * The audio ducking manager of the Windows runner

    A shallow embedding of [windows/audio_ducking_manager.cpp] and of the
    class declared in [windows/audio_ducking_manager.h]: the reference-counted
    [SessionNotifier] callback object and the [AudioDuckingManager] that walks
    the render endpoints, opts the sessions of the current process out of
    ducking, and registers one notifier per endpoint.

    The Windows audio subsystem is outside the source.  Every call the code
    makes into it is answered by a [Platform] record of oracles, one field per
    COM method, so that each result the code tests (an [HRESULT], a pointer
    left null or not, a count, a process id) is an arbitrary input.  A
    [Platform] is a snapshot: it answers one call of [Initialize] or one
    callback, and the next call may face another.  The calls that change
    something are appended to a [trace], in program order.  The model is
    sequential; [mutex_] is not represented. *)

From Stdlib Require Import ZArith List Lia Bool.
From stdpp Require Import base option gmap.
Import ListNotations.

#[local] Set Warnings "-clear-no-such-hyp".

(** ** Win32 vocabulary *)

Definition HRESULT := Z.

(** [winerror.h]: the severity bit of an [HRESULT] is its sign. *)
Definition SUCCEEDED (hr : HRESULT) : bool := (0 <=? hr)%Z.
Definition FAILED (hr : HRESULT) : bool := (hr <? 0)%Z.

Definition S_OK : HRESULT := 0%Z.
Definition E_NOINTERFACE : HRESULT := (-2147467262)%Z.      (* 0x80004002 *)
Definition E_POINTER : HRESULT := (-2147467261)%Z.          (* 0x80004003 *)
Definition RPC_E_CHANGED_MODE : HRESULT := (-2147417850)%Z. (* 0x80010106 *)

(** [ULONG] is an unsigned 32-bit integer: arithmetic wraps. *)
Definition ULONG_wrap (z : Z) : Z := (z mod 2 ^ 32)%Z.

(** An interface identifier, read as a 128-bit number. *)
Definition GUID := N.

(** Objects are named by handles; a C++ pointer is an [option], [None]
    being [nullptr]. *)
Definition handle := nat.

Definition non_null {A} (p : option A) : bool :=
  match p with Some _ => true | None => false end.

(** The COM objects the code holds references to, by interface. *)
Inductive Obj :=
| DeviceEnumerator (h : handle)
| DeviceCollection (h : handle)
| Device (h : handle)
| SessionManager (h : handle)
| SessionEnumerator (h : handle)
| SessionControl (h : handle)
| SessionControl2 (h : handle)
| Notifier (h : handle).

(** The calls that have an effect outside the caller's locals. *)
Inductive Event :=
| EvCoInitializeEx
| EvCoUninitialize
| EvSetDuckingPreference (session : handle)
| EvRegisterSessionNotification (manager2 notifier : handle)
| EvUnregisterSessionNotification (manager2 notifier : handle)
| EvAddRef (o : Obj)
| EvRelease (o : Obj).

(** ** The notifier object *)

Record SessionNotifier := { ref_count_ : Z }.

(** [explicit SessionNotifier() : ref_count_(1) {}] *)
Definition SessionNotifier_new : SessionNotifier := {| ref_count_ := 1 |}.

(** [return ++ref_count_;] *)
Definition AddRef (o : SessionNotifier) : SessionNotifier * Z :=
  let r := ULONG_wrap (ref_count_ o + 1) in
  ({| ref_count_ := r |}, r).

(** [ULONG r = --ref_count_; if (r == 0) delete this; return r;]
    The first component is the object after the call, [None] once deleted. *)
Definition Release (o : SessionNotifier) : option SessionNotifier * Z :=
  let r := ULONG_wrap (ref_count_ o - 1) in
  (if (r =? 0)%Z then None else Some {| ref_count_ := r |}, r).

(** What [QueryInterface] leaves behind: the object, the returned code and
    what was stored through [ppv] ([None]: nothing stored; [Some p]: [*ppv = p]). *)
Record QueryResult := {
  qr_object : SessionNotifier;
  qr_hresult : HRESULT;
  qr_out : option (option handle)
}.

Section NotifierInterfaces.
(** [__uuidof(IUnknown)] and [__uuidof(IAudioSessionNotification)] come
    from the Windows headers. *)
Variables uuidof_IUnknown uuidof_IAudioSessionNotification : GUID.

(** [ppv] is [true] when the caller passed a non-null [void**]. *)
Definition QueryInterface (this : handle) (riid : GUID) (ppv : bool)
    (o : SessionNotifier) : QueryResult :=
  if negb ppv then
    {| qr_object := o; qr_hresult := E_POINTER; qr_out := None |}
  else if (riid =? uuidof_IUnknown)%N || (riid =? uuidof_IAudioSessionNotification)%N then
    {| qr_object := fst (AddRef o); qr_hresult := S_OK; qr_out := Some (Some this) |}
  else
    {| qr_object := o; qr_hresult := E_NOINTERFACE; qr_out := Some None |}.
End NotifierInterfaces.

(** ** The world the code runs in *)

Record World := {
  trace : list Event;                       (* effectful calls, oldest first *)
  opted_out : gset handle;                  (* sessions whose ducking preference is TRUE *)
  notifiers : gmap handle SessionNotifier;  (* live SessionNotifier objects *)
  next_notifier : handle                    (* where [new] allocates next *)
}.

Definition log (e : Event) (w : World) : World :=
  {| trace := trace w ++ [e]; opted_out := opted_out w;
     notifiers := notifiers w; next_notifier := next_notifier w |}.

Definition set_notifiers (h : gmap handle SessionNotifier) (w : World) : World :=
  {| trace := trace w; opted_out := opted_out w;
     notifiers := h; next_notifier := next_notifier w |}.

(** The events added between two worlds. *)
Definition events_since (w w' : World) : list Event :=
  drop (length (trace w)) (trace w').

(** Answers of the audio subsystem.  A pair [(hr, p)] is the returned code
    and the value the out-parameter holds after the call. *)
Record Platform := {
  current_pid : Z;                                        (* ::GetCurrentProcessId() *)
  co_initialize : HRESULT;                                (* ::CoInitializeEx *)
  co_create_instance : HRESULT * option handle;           (* ::CoCreateInstance *)
  enum_audio_endpoints : handle -> HRESULT * option handle;
  collection_count : handle -> nat;                       (* [count] after GetCount *)
  collection_item : handle -> nat -> HRESULT * option handle;
  activate : handle -> HRESULT * option handle;           (* IMMDevice::Activate *)
  get_session_enumerator : handle -> HRESULT * option handle;
  session_count : handle -> HRESULT * Z;                  (* an [int] *)
  get_session : handle -> nat -> HRESULT * option handle;
  (* QueryInterface for IAudioSessionControl2 on a session: the code and
     whether [control2] is non-null afterwards (it is an interface of the
     same session object) *)
  query_control2 : handle -> HRESULT * bool;
  get_process_id : handle -> HRESULT * Z;                 (* [pid] after the call *)
  set_ducking_preference : handle -> HRESULT;
  register_notification : handle -> HRESULT;
  (* AddRef calls the subsystem makes on the notifier while
     RegisterSessionNotification runs *)
  register_addrefs : handle -> nat
}.

(** Virtual calls on an object.  A notifier runs the code above; the other
    objects belong to the subsystem and the call is only recorded. *)
Definition obj_AddRef (o : Obj) (w : World) : World :=
  let w1 := log (EvAddRef o) w in
  match o with
  | Notifier n =>
      match notifiers w1 !! n with
      | Some obj => set_notifiers (<[n := fst (AddRef obj)]> (notifiers w1)) w1
      | None => w1
      end
  | _ => w1
  end.

Definition obj_Release (o : Obj) (w : World) : World :=
  let w1 := log (EvRelease o) w in
  match o with
  | Notifier n =>
      match notifiers w1 !! n with
      | Some obj =>
          match fst (Release obj) with
          | Some obj' => set_notifiers (<[n := obj']> (notifiers w1)) w1
          | None => set_notifiers (delete n (notifiers w1)) w1
          end
      | None => w1
      end
  | _ => w1
  end.

(** [template <typename T> void SafeRelease(T** pp)] *)
Definition SafeRelease (p : option Obj) (w : World) : World :=
  match p with
  | Some o => obj_Release o w
  | None => w
  end.

(** [new SessionNotifier()] *)
Definition new_SessionNotifier (w : World) : handle * World :=
  let n := next_notifier w in
  (n, {| trace := trace w; opted_out := opted_out w;
         notifiers := <[n := SessionNotifier_new]> (notifiers w);
         next_notifier := S n |}).

(** [control2->SetDuckingPreference(TRUE)]; the flag changes when the call
    succeeds, the returned code is dropped by both callers. *)
Definition SetDuckingPreference (P : Platform) (s : handle) (w : World) : World :=
  let w1 := log (EvSetDuckingPreference s) w in
  if SUCCEEDED (set_ducking_preference P s) then
    {| trace := trace w1; opted_out := {[ s ]} ∪ opted_out w1;
       notifiers := notifiers w1; next_notifier := next_notifier w1 |}
  else w1.

(** [manager2->RegisterSessionNotification(notifier)] *)
Definition RegisterSessionNotification (P : Platform) (m n : handle) (w : World)
    : HRESULT * World :=
  (register_notification P m,
   Nat.iter (register_addrefs P m) (obj_AddRef (Notifier n))
            (log (EvRegisterSessionNotification m n) w)).

(** [manager2->UnregisterSessionNotification(notifier)].  The call is
    recorded; whether and when the subsystem gives back the references it took
    on the notifier is its own business and is not represented, so nothing
    below speaks of notifier counts after an unsubscription. *)
Definition UnregisterSessionNotification (m n : handle) (w : World) : World :=
  log (EvUnregisterSessionNotification m n) w.

(** ** The notification callback *)

(** How a member function ends: it returns, or it calls through a null
    pointer. *)
Inductive Outcome (A : Type) :=
| Returned (a : A)
| NullDereference.
Arguments Returned {A} a.
Arguments NullDereference {A}.

(** [SessionNotifier::OnSessionCreated] *)
Definition OnSessionCreated (P : Platform) (new_session : option handle) (w : World)
    : World * Outcome HRESULT :=
  match new_session with
  | None => (w, Returned S_OK)
  | Some s =>
      let '(hr, control2) := query_control2 P s in
      if SUCCEEDED hr then
        if control2 then
          let '(hr_pid, pid) := get_process_id P s in
          let w1 :=
            if SUCCEEDED hr_pid then
              if (pid =? current_pid P)%Z then SetDuckingPreference P s w else w
            else w in
          (SafeRelease (Some (SessionControl2 s)) w1, Returned S_OK)
        else
          (* control2->GetProcessId(&pid) with control2 == nullptr *)
          (w, NullDereference)
      else
        (SafeRelease (if control2 then Some (SessionControl2 s) else None) w,
         Returned S_OK)
  end.

(** ** The manager *)

Record Registration := {
  manager2 : option handle;   (* IAudioSessionManager2* *)
  notifier : option handle    (* IAudioSessionNotification* *)
}.

Record AudioDuckingManager := {
  com_initialized_ : bool;
  registrations_ : list Registration
}.

(** [AudioDuckingManager() = default], with the in-class initializers. *)
Definition AudioDuckingManager_new : AudioDuckingManager :=
  {| com_initialized_ := false; registrations_ := [] |}.

(** The body of the range-for in the destructor. *)
Definition release_registration (w : World) (r : Registration) : World :=
  let w1 :=
    match manager2 r, notifier r with
    | Some m, Some n => UnregisterSessionNotification m n w
    | _, _ => w
    end in
  let w2 := SafeRelease (Notifier <$> notifier r) w1 in
  SafeRelease (SessionManager <$> manager2 r) w2.

(** [AudioDuckingManager::~AudioDuckingManager] *)
Definition AudioDuckingManager_destroy (this : AudioDuckingManager) (w : World)
    : AudioDuckingManager * World :=
  let w1 := fold_left release_registration (registrations_ this) w in
  if com_initialized_ this then
    ({| com_initialized_ := false; registrations_ := [] |}, log EvCoUninitialize w1)
  else
    ({| com_initialized_ := com_initialized_ this; registrations_ := [] |}, w1).

(** [AudioDuckingManager::CreateSessionManagerForDevice] *)
Definition CreateSessionManagerForDevice (P : Platform) (device : option handle)
    (w : World) : option handle * World :=
  match device with
  | None => (None, w)
  | Some d =>
      let '(hr, manager2) := activate P d in
      if FAILED hr then (None, SafeRelease (SessionManager <$> manager2) w)
      else (manager2, w)
  end.

(** The body of the loop over sessions. *)
Definition session_step (P : Platform) (enumerator : handle) (w : World) (i : nat)
    : World :=
  let '(hr, control) := get_session P enumerator i in
  let w1 :=
    match control with
    | Some s =>
        if SUCCEEDED hr then
          let '(hr_qi, control2) := query_control2 P s in
          let w' :=
            if SUCCEEDED hr_qi && control2 then
              let '(hr_pid, pid) := get_process_id P s in
              if SUCCEEDED hr_pid && (pid =? current_pid P)%Z
              then SetDuckingPreference P s w else w
            else w in
          SafeRelease (if control2 then Some (SessionControl2 s) else None) w'
        else w
    | None => w
    end in
  SafeRelease (SessionControl <$> control) w1.

(** [AudioDuckingManager::ApplyOptOutToExistingSessions] *)
Definition ApplyOptOutToExistingSessions (P : Platform) (manager2 : option handle)
    (w : World) : World :=
  match manager2 with
  | None => w
  | Some m =>
      let '(hr, enumerator) := get_session_enumerator P m in
      match enumerator with
      | Some e =>
          if FAILED hr then SafeRelease (Some (SessionEnumerator e)) w
          else
            let '(hr_count, count) := session_count P e in
            if FAILED hr_count then SafeRelease (Some (SessionEnumerator e)) w
            else
              SafeRelease (Some (SessionEnumerator e))
                (fold_left (session_step P e) (seq 0 (Z.to_nat count)) w)
      | None => w
      end
  end.

(** [AudioDuckingManager::RegisterForNewSessions] *)
Definition RegisterForNewSessions (P : Platform) (manager2 : option handle)
    (this : AudioDuckingManager) (w : World) : AudioDuckingManager * World :=
  match manager2 with
  | None => (this, w)
  | Some m =>
      let '(n, w1) := new_SessionNotifier w in
      let '(hr, w2) := RegisterSessionNotification P m n w1 in
      if SUCCEEDED hr then
        let w3 := obj_AddRef (SessionManager m) w2 in
        let reg := {| manager2 := Some m; notifier := Some n |} in
        ({| com_initialized_ := com_initialized_ this;
            registrations_ := registrations_ this ++ [reg] |}, w3)
      else
        (this, obj_Release (Notifier n) w2)
  end.

(** The body of the loop over endpoints. *)
Definition device_step (P : Platform) (collection : handle)
    (st : AudioDuckingManager * World) (i : nat) : AudioDuckingManager * World :=
  let '(this, w) := st in
  let '(hr, device) := collection_item P collection i in
  let '(this1, w1) :=
    if SUCCEEDED hr && non_null device then
      let '(manager2, w') := CreateSessionManagerForDevice P device w in
      if non_null manager2 then
        RegisterForNewSessions P manager2 this
          (ApplyOptOutToExistingSessions P manager2 w')
      else (this, w')
    else (this, w) in
  (this1, SafeRelease (Device <$> device) w1).

(** [AudioDuckingManager::SetupForAllRenderDevices] *)
Definition SetupForAllRenderDevices (P : Platform) (this : AudioDuckingManager)
    (w : World) : AudioDuckingManager * World :=
  let '(hr, enumerator) := co_create_instance P in
  match enumerator with
  | Some e =>
      if FAILED hr then (this, SafeRelease (Some (DeviceEnumerator e)) w)
      else
        let '(hr_enum, collection) := enum_audio_endpoints P e in
        match collection with
        | Some c =>
            if FAILED hr_enum then
              (this, SafeRelease (Some (DeviceEnumerator e))
                       (SafeRelease (Some (DeviceCollection c)) w))
            else
              let '(this1, w1) :=
                fold_left (device_step P c) (seq 0 (collection_count P c)) (this, w) in
              (this1, SafeRelease (Some (DeviceEnumerator e))
                        (SafeRelease (Some (DeviceCollection c)) w1))
        | None => (this, SafeRelease (Some (DeviceEnumerator e)) w)
        end
  | None => (this, w)
  end.

(** [AudioDuckingManager::Initialize] *)
Definition Initialize (P : Platform) (this : AudioDuckingManager) (w : World)
    : AudioDuckingManager * World :=
  let '(this1, w1) :=
    if negb (com_initialized_ this) then
      let hr := co_initialize P in
      let w' := log EvCoInitializeEx w in
      if SUCCEEDED hr then
        ({| com_initialized_ := true; registrations_ := registrations_ this |}, w')
      else if (hr =? RPC_E_CHANGED_MODE)%Z then
        (* COM already initialized with different model; proceed without marking. *)
        (this, w')
      else (this, w')
    else (this, w) in
  SetupForAllRenderDevices P this1 w1.

(** [Initialize] called once per platform snapshot, in order. *)
Definition Initialize_all (Ps : list Platform) (st : AudioDuckingManager * World)
    : AudioDuckingManager * World :=
  fold_left (fun st P => Initialize P (fst st) (snd st)) Ps st.

(** ** Reference-count histories *)

Inductive RefOp := OpAddRef | OpRelease.

(** A sequence of [AddRef] and [Release] calls on one notifier; once deleted
    the object stays deleted. *)
Fixpoint run_ops (ops : list RefOp) (o : option SessionNotifier)
    : option SessionNotifier :=
  match ops with
  | [] => o
  | op :: rest =>
      match o with
      | None => None
      | Some obj =>
          run_ops rest (match op with
                        | OpAddRef => Some (fst (AddRef obj))
                        | OpRelease => fst (Release obj)
                        end)
      end
  end.

(** References outstanding after [ops], starting from [c]. *)
Fixpoint outstanding (c : Z) (ops : list RefOp) : Z :=
  match ops with
  | [] => c
  | OpAddRef :: rest => outstanding (c + 1) rest
  | OpRelease :: rest => outstanding (c - 1) rest
  end.

(** ** What a pass can be observed to do *)

(** The sessions [SetDuckingPreference] was called on, in call order. *)
Definition ducking_calls (t : list Event) : list handle :=
  flat_map (fun e => match e with EvSetDuckingPreference s => [s] | _ => [] end) t.

(** The owning process id of session [s] was read: the control interface was
    obtained and [GetProcessId] succeeded. *)
Definition pid_read (P : Platform) (s : handle) : bool :=
  SUCCEEDED (fst (query_control2 P s)) && snd (query_control2 P s)
  && SUCCEEDED (fst (get_process_id P s)).

(** ... and it is the id of the current process. *)
Definition owned_by_current (P : Platform) (s : handle) : bool :=
  pid_read P s && (snd (get_process_id P s) =? current_pid P)%Z.

(** The session handed out at index [i] of an enumerator, if any. *)
Definition session_at (P : Platform) (e : handle) (i : nat) : list handle :=
  match get_session P e i with
  | (hr, Some s) => if SUCCEEDED hr then [s] else []
  | (_, None) => []
  end.

(** The sessions the synchronous pass looks at for one session manager. *)
Definition examined_sessions (P : Platform) (m : handle) : list handle :=
  match get_session_enumerator P m with
  | (hr, Some e) =>
      if FAILED hr then []
      else if FAILED (fst (session_count P e)) then []
      else flat_map (session_at P e) (seq 0 (Z.to_nat (snd (session_count P e))))
  | (_, None) => []
  end.

(** The endpoint collection, when the subsystem can be reached. *)
Definition render_collection (P : Platform) : option handle :=
  match co_create_instance P with
  | (hr, Some e) =>
      if FAILED hr then None
      else match enum_audio_endpoints P e with
           | (hr_enum, Some c) => if FAILED hr_enum then None else Some c
           | (_, None) => None
           end
  | (_, None) => None
  end.

(** The session manager activated for endpoint [i], if any. *)
Definition endpoint_manager (P : Platform) (c : handle) (i : nat) : list handle :=
  match collection_item P c i with
  | (hr, Some d) =>
      if SUCCEEDED hr then
        match activate P d with
        | (hr_act, Some m) => if FAILED hr_act then [] else [m]
        | (_, None) => []
        end
      else []
  | (_, None) => []
  end.

Definition activated_managers (P : Platform) : list handle :=
  match render_collection P with
  | Some c => flat_map (endpoint_manager P c) (seq 0 (collection_count P c))
  | None => []
  end.

Definition subscribed_managers (P : Platform) : list handle :=
  List.filter (fun m => SUCCEEDED (register_notification P m)) (activated_managers P).

(** The sessions the synchronous pass of one [Initialize] opts out, in order. *)
Definition initial_pass_calls (P : Platform) : list handle :=
  flat_map (fun m => List.filter
                       (fun s => SUCCEEDED (fst (query_control2 P s))
                                 && snd (query_control2 P s)
                                 && SUCCEEDED (fst (get_process_id P s))
                                 && (snd (get_process_id P s) =? current_pid P)%Z)
                       (examined_sessions P m))
           (activated_managers P).

(** The sessions among [calls] on which SetDuckingPreference succeeds. *)
Definition granted (P : Platform) (calls : list handle) : gset handle :=
  list_to_set (List.filter (fun s => SUCCEEDED (set_ducking_preference P s)) calls).

(** [w'] comes from [w] by further calls, among which SetDuckingPreference
    was called on exactly [calls], in that order. *)
Definition pass_effect (P : Platform) (w w' : World) (calls : list handle) : Prop :=
  (exists evs, trace w' = trace w ++ evs /\ ducking_calls evs = calls)
  /\ opted_out w' = opted_out w ∪ granted P calls.

(** [w'] has the notifiers [w] had, untouched, and maybe newer ones. *)
Definition heap_frame (w w' : World) : Prop :=
  next_notifier w <= next_notifier w'
  /\ forall n : handle, n < next_notifier w -> notifiers w' !! n = notifiers w !! n.

(** A registration as [RegisterForNewSessions] records it. *)
Definition registration_of (mn : handle * handle) : Registration :=
  {| manager2 := Some (fst mn); notifier := Some (snd mn) |}.

(** The sessions of the current process that the synchronous pass finds. *)
Definition own_sessions (P : Platform) (m : handle) : list handle :=
  List.filter (owned_by_current P) (examined_sessions P m).

(** The managers [subs] were registered between [st] and [st'], each with a
    notifier of its own, allocated in between and alive in [st']. *)
Definition reg_growth (st st' : AudioDuckingManager * World) (subs : list handle)
    : Prop :=
  heap_frame (snd st) (snd st')
  /\ exists news : list (handle * handle),
       registrations_ (fst st') = registrations_ (fst st) ++ map registration_of news
       /\ map fst news = subs
       /\ NoDup (map snd news)
       /\ Forall (fun n : handle =>
                    next_notifier (snd st) <= n < next_notifier (snd st')
                    /\ is_Some (notifiers (snd st') !! n))
                 (map snd news).

Definition subscribes (P : Platform) (m : handle) : bool :=
  SUCCEEDED (register_notification P m).

(** The three calls the destructor makes for a registration of manager
    [fst mn] with notifier [snd mn]. *)
Definition teardown_calls (mn : handle * handle) : list Event :=
  [ EvUnregisterSessionNotification (fst mn) (snd mn);
    EvRelease (Notifier (snd mn));
    EvRelease (SessionManager (fst mn)) ].

(** ** A stub subsystem

    Two endpoints; the first has a session of the current process and one of
    process 123, the second has none. *)
Definition stub : Platform := {|
  current_pid := 4242;
  co_initialize := S_OK;
  co_create_instance := (S_OK, Some 1);
  enum_audio_endpoints := fun _ => (S_OK, Some 2);
  collection_count := fun _ => 2;
  collection_item := fun _ i => (S_OK, Some (10 + i));
  activate := fun d => (S_OK, Some (10 + d));
  get_session_enumerator := fun m => (S_OK, Some (10 + m));
  session_count := fun e => (S_OK, if e =? 30 then 2%Z else 0%Z);
  get_session := fun _ i => (S_OK, Some (100 + i));
  query_control2 := fun _ => (S_OK, true);
  get_process_id := fun s => (S_OK, if s =? 100 then 4242%Z else 123%Z);
  set_ducking_preference := fun _ => S_OK;
  register_notification := fun _ => S_OK;
  register_addrefs := fun _ => 1
|}.

Definition empty_world : World :=
  {| trace := []; opted_out := ∅; notifiers := ∅; next_notifier := 0 |}.

(** The stub with one answer changed. *)
Definition stub_null_control2 : Platform := {|
  current_pid := current_pid stub;
  co_initialize := co_initialize stub;
  co_create_instance := co_create_instance stub;
  enum_audio_endpoints := enum_audio_endpoints stub;
  collection_count := collection_count stub;
  collection_item := collection_item stub;
  activate := activate stub;
  get_session_enumerator := get_session_enumerator stub;
  session_count := session_count stub;
  get_session := get_session stub;
  query_control2 := fun _ => (S_OK, false);
  get_process_id := get_process_id stub;
  set_ducking_preference := set_ducking_preference stub;
  register_notification := register_notification stub;
  register_addrefs := register_addrefs stub
|}.

(** CoInitializeEx fails with E_OUTOFMEMORY, the rest answers as before. *)
Definition stub_com_failed : Platform := {|
  current_pid := current_pid stub;
  co_initialize := (-2147024882)%Z;
  co_create_instance := co_create_instance stub;
  enum_audio_endpoints := enum_audio_endpoints stub;
  collection_count := collection_count stub;
  collection_item := collection_item stub;
  activate := activate stub;
  get_session_enumerator := get_session_enumerator stub;
  session_count := session_count stub;
  get_session := get_session stub;
  query_control2 := query_control2 stub;
  get_process_id := get_process_id stub;
  set_ducking_preference := set_ducking_preference stub;
  register_notification := register_notification stub;
  register_addrefs := register_addrefs stub
|}.

(** CoCreateInstance fails with REGDB_E_CLASSNOTREG. *)
Definition stub_unavailable : Platform := {|
  current_pid := current_pid stub;
  co_initialize := co_initialize stub;
  co_create_instance := ((-2147221164)%Z, None);
  enum_audio_endpoints := enum_audio_endpoints stub;
  collection_count := collection_count stub;
  collection_item := collection_item stub;
  activate := activate stub;
  get_session_enumerator := get_session_enumerator stub;
  session_count := session_count stub;
  get_session := get_session stub;
  query_control2 := query_control2 stub;
  get_process_id := get_process_id stub;
  set_ducking_preference := set_ducking_preference stub;
  register_notification := register_notification stub;
  register_addrefs := register_addrefs stub
|}.

(** Three endpoints, the second of which cannot be activated. *)
Definition stub_partial : Platform := {|
  current_pid := current_pid stub;
  co_initialize := co_initialize stub;
  co_create_instance := co_create_instance stub;
  enum_audio_endpoints := enum_audio_endpoints stub;
  collection_count := fun _ => 3;
  collection_item := collection_item stub;
  activate := fun d => if d =? 11 then ((-2147467259)%Z, None) else (S_OK, Some (10 + d));
  get_session_enumerator := get_session_enumerator stub;
  session_count := session_count stub;
  get_session := get_session stub;
  query_control2 := query_control2 stub;
  get_process_id := get_process_id stub;
  set_ducking_preference := set_ducking_preference stub;
  register_notification := register_notification stub;
  register_addrefs := register_addrefs stub
|}.

(** Every subscription is refused with E_FAIL and the subsystem keeps no
    reference to the notifier. *)
Definition stub_subscription_refused : Platform := {|
  current_pid := current_pid stub;
  co_initialize := co_initialize stub;
  co_create_instance := co_create_instance stub;
  enum_audio_endpoints := enum_audio_endpoints stub;
  collection_count := collection_count stub;
  collection_item := collection_item stub;
  activate := activate stub;
  get_session_enumerator := get_session_enumerator stub;
  session_count := session_count stub;
  get_session := get_session stub;
  query_control2 := query_control2 stub;
  get_process_id := get_process_id stub;
  set_ducking_preference := set_ducking_preference stub;
  register_notification := fun _ => (-2147467259)%Z;
  register_addrefs := fun _ => 0
|}.

(** ** Calls on the manager side

    The calls that concern COM initialization, subscriptions and the
    references on session managers, with the notifier handle forgotten. *)
Inductive ManagerCall :=
| McCoInitializeEx
| McCoUninitialize
| McRegister (m : handle)
| McUnregister (m : handle)
| McAddRef (m : handle)
| McRelease (m : handle).

Definition manager_call (e : Event) : list ManagerCall :=
  match e with
  | EvCoInitializeEx => [McCoInitializeEx]
  | EvCoUninitialize => [McCoUninitialize]
  | EvRegisterSessionNotification m _ => [McRegister m]
  | EvUnregisterSessionNotification m _ => [McUnregister m]
  | EvAddRef (SessionManager m) => [McAddRef m]
  | EvRelease (SessionManager m) => [McRelease m]
  | _ => []
  end.

Definition manager_calls (t : list Event) : list ManagerCall :=
  flat_map manager_call t.

(** [w'] comes from [w] by further calls whose manager-side part is [l]. *)
Definition mc_effect (w w' : World) (l : list ManagerCall) : Prop :=
  exists evs, trace w' = trace w ++ evs /\ manager_calls evs = l.

Definition addrefed (l : list ManagerCall) : list handle :=
  flat_map (fun c => match c with McAddRef m => [m] | _ => [] end) l.
Definition released (l : list ManagerCall) : list handle :=
  flat_map (fun c => match c with McRelease m => [m] | _ => [] end) l.
Definition registered (l : list ManagerCall) : list handle :=
  flat_map (fun c => match c with McRegister m => [m] | _ => [] end) l.
Definition unregistered (l : list ManagerCall) : list handle :=
  flat_map (fun c => match c with McUnregister m => [m] | _ => [] end) l.
Definition co_init_calls (l : list ManagerCall) : list ManagerCall :=
  List.filter (fun c => match c with McCoInitializeEx => true | _ => false end) l.
Definition co_uninit_calls (l : list ManagerCall) : list ManagerCall :=
  List.filter (fun c => match c with McCoUninitialize => true | _ => false end) l.

(** The calls that only concern sessions and their enumerator. *)
Definition session_level (e : Event) : bool :=
  match e with
  | EvSetDuckingPreference _ => true
  | EvRelease (SessionControl _) => true
  | EvRelease (SessionControl2 _) => true
  | EvRelease (SessionEnumerator _) => true
  | _ => false
  end.

(** [w'] comes from [w] by calls that all satisfy [Q]. *)
Definition footprint (Q : Event -> bool) (w w' : World) : Prop :=
  exists evs, trace w' = trace w ++ evs /\ forallb Q evs = true.

(** The session-manager pointer Activate left behind together with a failure
    code at endpoint [i], if any. *)
Definition stray_manager (P : Platform) (c : handle) (i : nat) : list handle :=
  match collection_item P c i with
  | (hr, Some d) =>
      if SUCCEEDED hr then
        match activate P d with
        | (hr_act, Some m) => if FAILED hr_act then [m] else []
        | (_, None) => []
        end
      else []
  | (_, None) => []
  end.

Definition stray_managers (P : Platform) : list handle :=
  match render_collection P with
  | Some c => flat_map (stray_manager P c) (seq 0 (collection_count P c))
  | None => []
  end.

(** The manager-side calls for endpoint [i]. *)
Definition endpoint_calls (P : Platform) (c : handle) (i : nat) : list ManagerCall :=
  map McRelease (stray_manager P c i)
  ++ flat_map (fun m => McRegister m :: (if subscribes P m then [McAddRef m] else []))
              (endpoint_manager P c i).

(** The manager-side calls of one [Initialize], [com] being the flag on entry. *)
Definition initialize_calls (P : Platform) (com : bool) : list ManagerCall :=
  (if com then [] else [McCoInitializeEx])
  ++ match render_collection P with
     | Some c => flat_map (endpoint_calls P c) (seq 0 (collection_count P c))
     | None => []
     end.

Fixpoint lifetime_calls (com : bool) (Ps : list Platform) : list ManagerCall :=
  match Ps with
  | [] => []
  | P :: rest =>
      initialize_calls P com
      ++ lifetime_calls (com || SUCCEEDED (co_initialize P)) rest
  end.

(** The answers CoInitializeEx gives to the calls that are actually made. *)
Fixpoint co_init_attempts (Ps : list Platform) : list HRESULT :=
  match Ps with
  | [] => []
  | P :: rest =>
      co_initialize P
      :: (if SUCCEEDED (co_initialize P) then [] else co_init_attempts rest)
  end.

(** ** Notifiers allocated by a pass *)

(** The notifier made for manager [m], as [RegisterForNewSessions] leaves it:
    the creator's reference and the subsystem's when the subscription
    succeeded, the subsystem's alone when it was refused. *)
Definition kept_by_subsystem (P : Platform) (m : handle) : option SessionNotifier :=
  if (ULONG_wrap (Z.of_nat (register_addrefs P m)) =? 0)%Z then None
  else Some {| ref_count_ := ULONG_wrap (Z.of_nat (register_addrefs P m)) |}.

Definition notifier_after_register (P : Platform) (m : handle) : option SessionNotifier :=
  if subscribes P m
  then Some {| ref_count_ := ULONG_wrap (1 + Z.of_nat (register_addrefs P m)) |}
  else kept_by_subsystem P m.

(** The registrations recorded for the managers [acts], the first notifier
    being allocated at [n]. *)
Fixpoint fresh_registrations (P : Platform) (n : handle) (acts : list handle)
    : list Registration :=
  match acts with
  | [] => []
  | m :: rest =>
      (if subscribes P m then [ {| manager2 := Some m; notifier := Some n |} ] else [])
      ++ fresh_registrations P (S n) rest
  end.

(** Between [st] and [st'] one notifier was allocated for each of [acts], at
    consecutive handles, and nothing older was touched. *)
Definition alloc_effect (P : Platform) (st st' : AudioDuckingManager * World)
    (acts : list handle) : Prop :=
  next_notifier (snd st') = next_notifier (snd st) + length acts
  /\ registrations_ (fst st')
     = registrations_ (fst st) ++ fresh_registrations P (next_notifier (snd st)) acts
  /\ (forall n : handle, n < next_notifier (snd st) ->
                         notifiers (snd st') !! n = notifiers (snd st) !! n)
  /\ (forall (j : nat) (m : handle), acts !! j = Some m ->
         notifiers (snd st') !! (next_notifier (snd st) + j)
         = notifier_after_register P m).

(** ** Other readings of the trace *)

(** [w'] comes from [w] by further calls which [sel] reads as [l]. *)
Definition proj_effect {X} (sel : Event -> list X) (w w' : World) (l : list X) : Prop :=
  exists evs, trace w' = trace w ++ evs /\ flat_map sel evs = l.

(** The two things a pass does for the user: opting a session out and
    subscribing to a session manager. *)
Inductive Step :=
| OptOut (s : handle)
| Subscribe (m : handle).

Definition step_of (e : Event) : list Step :=
  match e with
  | EvSetDuckingPreference s => [OptOut s]
  | EvRegisterSessionNotification m _ => [Subscribe m]
  | _ => []
  end.

(** The Release calls on the device enumerator, the collection and devices. *)
Definition endpoint_release (e : Event) : list Obj :=
  match e with
  | EvRelease (DeviceEnumerator h) => [DeviceEnumerator h]
  | EvRelease (DeviceCollection h) => [DeviceCollection h]
  | EvRelease (Device h) => [Device h]
  | _ => []
  end.

(** The device pointer Item leaves at index [i], whatever code it returns. *)
Definition device_pointer (P : Platform) (c : handle) (i : nat) : list Obj :=
  match snd (collection_item P c i) with
  | Some d => [Device d]
  | None => []
  end.

(** The endpoint-side pointers the pass is handed, devices first, then the
    collection, then the enumerator. *)
Definition endpoint_side_pointers (P : Platform) : list Obj :=
  match co_create_instance P with
  | (hr, Some e) =>
      (if FAILED hr then []
       else match enum_audio_endpoints P e with
            | (hr_enum, Some c) =>
                (if FAILED hr_enum then []
                 else flat_map (device_pointer P c) (seq 0 (collection_count P c)))
                ++ [DeviceCollection c]
            | (_, None) => []
            end)
      ++ [DeviceEnumerator e]
  | (_, None) => []
  end.

(** What a selector reads in the calls made for endpoint [i], for selectors
    that do not look at notifier handles. *)
Definition endpoint_reading {X} (sel : Event -> list X) (P : Platform) (c : handle)
    (i : nat) : list X :=
  match collection_item P c i with
  | (hr, device) =>
      match device with
      | Some d =>
          if SUCCEEDED hr then
            match activate P d with
            | (hr_act, Some m) =>
                if FAILED hr_act then sel (EvRelease (SessionManager m))
                else flat_map (fun s => sel (EvSetDuckingPreference s)) (own_sessions P m)
                     ++ sel (EvRegisterSessionNotification m 0)
                     ++ (if subscribes P m then sel (EvAddRef (SessionManager m)) else [])
            | (_, None) => []
            end
          else []
      | None => []
      end
      ++ match device with Some d => sel (EvRelease (Device d)) | None => [] end
  end.

(** ... and in the calls of one [Initialize]. *)
Definition initialize_reading {X} (sel : Event -> list X) (P : Platform) (com : bool)
    : list X :=
  (if com then [] else sel EvCoInitializeEx)
  ++ match co_create_instance P with
     | (hr, Some e) =>
         (if FAILED hr then []
          else match enum_audio_endpoints P e with
               | (hr_enum, Some c) =>
                   (if FAILED hr_enum then []
                    else flat_map (endpoint_reading sel P c) (seq 0 (collection_count P c)))
                   ++ sel (EvRelease (DeviceCollection c))
               | (_, None) => []
               end)
         ++ sel (EvRelease (DeviceEnumerator e))
     | (_, None) => []
     end.

(** The Release calls on session interfaces and session enumerators. *)
Definition session_release (e : Event) : list Obj :=
  match e with
  | EvRelease (SessionControl h) => [SessionControl h]
  | EvRelease (SessionControl2 h) => [SessionControl2 h]
  | EvRelease (SessionEnumerator h) => [SessionEnumerator h]
  | _ => []
  end.

(** The session-side pointers the pass is handed at index [i]: the control
    pointer GetSession leaves, whatever code it returns, preceded by the
    control2 pointer when the query was made and left one. *)
Definition session_pointers (P : Platform) (e : handle) (i : nat) : list Obj :=
  match get_session P e i with
  | (hr, Some s) =>
      (if SUCCEEDED hr
       then if snd (query_control2 P s) then [SessionControl2 s] else []
       else [])
      ++ [SessionControl s]
  | (_, None) => []
  end.

Definition session_side_pointers (P : Platform) (m : handle) : list Obj :=
  match get_session_enumerator P m with
  | (hr, Some e) =>
      (if FAILED hr then []
       else if FAILED (fst (session_count P e)) then []
       else flat_map (session_pointers P e) (seq 0 (Z.to_nat (snd (session_count P e)))))
      ++ [SessionEnumerator e]
  | (_, None) => []
  end.

(** * Facts *)

(** ** The stub scenario, run *)

Example stub_initialize_calls :
  ducking_calls (trace (snd (Initialize stub AudioDuckingManager_new empty_world))) = [100].
Proof. vm_compute. reflexivity. Qed.

Example stub_initialize_registrations :
  registrations_ (fst (Initialize stub AudioDuckingManager_new empty_world))
  = [ {| manager2 := Some 20; notifier := Some 0 |};
      {| manager2 := Some 21; notifier := Some 1 |} ].
Proof. vm_compute. reflexivity. Qed.

Example stub_initialize_trace :
  trace (snd (Initialize stub AudioDuckingManager_new empty_world))
  = [ EvCoInitializeEx;
      EvSetDuckingPreference 100;
      EvRelease (SessionControl2 100); EvRelease (SessionControl 100);
      EvRelease (SessionControl2 101); EvRelease (SessionControl 101);
      EvRelease (SessionEnumerator 30);
      EvRegisterSessionNotification 20 0; EvAddRef (Notifier 0);
      EvAddRef (SessionManager 20); EvRelease (Device 10);
      EvRelease (SessionEnumerator 31);
      EvRegisterSessionNotification 21 1; EvAddRef (Notifier 1);
      EvAddRef (SessionManager 21); EvRelease (Device 11);
      EvRelease (DeviceCollection 2); EvRelease (DeviceEnumerator 1) ].
Proof. vm_compute. reflexivity. Qed.

Example stub_notifier_counts :
  let w := snd (Initialize stub AudioDuckingManager_new empty_world) in
  notifiers w !! 0 = Some {| ref_count_ := 2 |}
  /\ notifiers w !! 1 = Some {| ref_count_ := 2 |}
  /\ notifiers w !! 2 = None.
Proof. vm_compute. auto. Qed.

(** ** The reference count of the notifier *)

Lemma ULONG_wrap_range z : (0 <= ULONG_wrap z < 2 ^ 32)%Z.
Proof. unfold ULONG_wrap. apply Z.mod_pos_bound. lia. Qed.

Lemma ULONG_wrap_small z : (0 <= z < 2 ^ 32)%Z -> ULONG_wrap z = z.
Proof. intros H. unfold ULONG_wrap. apply Z.mod_small. exact H. Qed.

Lemma ULONG_wrap_pred_zero z :
  ULONG_wrap (z - 1) = 0%Z <-> ULONG_wrap z = 1%Z.
Proof.
  unfold ULONG_wrap.
  pose proof (Z.div_mod z (2 ^ 32) ltac:(lia)) as Hz.
  pose proof (Z.mod_pos_bound z (2 ^ 32) ltac:(lia)) as Hb.
  split; intros H.
  - assert (Hd : (z - 1 = 2 ^ 32 * ((z - 1) / 2 ^ 32))%Z).
    { pose proof (Z.div_mod (z - 1) (2 ^ 32) ltac:(lia)). lia. }
    assert (E : (z = 1 + (z - 1) / 2 ^ 32 * 2 ^ 32)%Z) by lia.
    rewrite E at 1. rewrite Z.mod_add by lia. reflexivity.
  - assert (E : (z - 1 = 0 + z / 2 ^ 32 * 2 ^ 32)%Z) by lia.
    rewrite E. rewrite Z.mod_add by lia. reflexivity.
Qed.

Lemma Release_count o : snd (Release o) = ULONG_wrap (ref_count_ o - 1).
Proof. reflexivity. Qed.

Lemma Release_deleted_iff o : fst (Release o) = None <-> snd (Release o) = 0%Z.
Proof.
  unfold Release; simpl.
  destruct (Z.eqb_spec (ULONG_wrap (ref_count_ o - 1)) 0); split; congruence.
Qed.

Lemma Release_survives o o' :
  fst (Release o) = Some o' -> ref_count_ o' = snd (Release o) /\ snd (Release o) <> 0%Z.
Proof.
  unfold Release; simpl.
  destruct (Z.eqb_spec (ULONG_wrap (ref_count_ o - 1)) 0); intros H;
    inversion H; subst; simpl; auto.
Qed.

(** Without overflow, a history of [AddRef] and [Release] calls keeps the
    count equal to the number of outstanding references, and the object is
    deleted by the first [Release] after which none is outstanding. *)
Lemma run_ops_outstanding ops : forall c,
  (0 < c)%Z -> (c + Z.of_nat (length ops) < 2 ^ 32)%Z ->
  match run_ops ops (Some {| ref_count_ := c |}) with
  | Some o =>
      ref_count_ o = outstanding c ops
      /\ forall k, k <= length ops -> (0 < outstanding c (take k ops))%Z
  | None =>
      exists k, ops !! k = Some OpRelease
                /\ outstanding c (take (S k) ops) = 0%Z
                /\ forall j, j <= k -> (0 < outstanding c (take j ops))%Z
  end.
Proof.
  induction ops as [|op ops IH]; intros c Hc Hlen.
  - simpl. split; [reflexivity|]. intros k _. destruct k; simpl; lia.
  - simpl length in Hlen. destruct op; simpl run_ops.
    + unfold AddRef; simpl fst.
      rewrite ULONG_wrap_small by lia.
      specialize (IH (c + 1)%Z ltac:(lia) ltac:(lia)).
      destruct (run_ops ops (Some {| ref_count_ := c + 1 |})) as [o|].
      * destruct IH as [Hcnt Hpos]. split; [exact Hcnt|].
        intros [|k] Hk; simpl; [lia|]. apply Hpos. simpl in Hk. lia.
      * destruct IH as (k & Hk & Hz & Hpos). exists (S k). split; [exact Hk|].
        split; [exact Hz|]. intros [|j] Hj; simpl; [lia|]. apply Hpos. lia.
    + unfold Release; simpl fst.
      rewrite ULONG_wrap_small by lia.
      destruct (Z.eqb_spec (c - 1) 0) as [E|E].
      * assert (Hnone : run_ops ops None = None) by (destruct ops; reflexivity).
        rewrite Hnone. exists 0. split; [reflexivity|]. split.
        -- simpl. exact E.
        -- intros j Hj. assert (j = 0) by lia. subst j. simpl. lia.
      * specialize (IH (c - 1)%Z ltac:(lia) ltac:(lia)).
        destruct (run_ops ops (Some {| ref_count_ := c - 1 |})) as [o|].
        -- destruct IH as [Hcnt Hpos]. split; [exact Hcnt|].
           intros [|k] Hk; simpl; [lia|]. apply Hpos. simpl in Hk. lia.
        -- destruct IH as (k & Hk & Hz & Hpos). exists (S k). split; [exact Hk|].
           split; [exact Hz|]. intros [|j] Hj; simpl; [lia|]. apply Hpos. lia.
Qed.

(** C8.  The notifier starts with a count of one; [AddRef] returns the count
    incremented; [Release] returns the count decremented, deletes the object
    exactly when that returned count is zero, which is exactly when the count
    before the call was one, and otherwise leaves it alive holding the
    returned count.  Over a whole history of calls on a new notifier (short
    of the 2^32 calls a [ULONG] can count) the count is the number of
    outstanding references, the object is alive as long as one reference is
    outstanding, and it is deleted by the [Release] that drops the last one. *)
Theorem Release_destroys_exactly_at_zero :
  ref_count_ SessionNotifier_new = 1%Z
  /\ (forall o, AddRef o = ({| ref_count_ := ULONG_wrap (ref_count_ o + 1) |},
                            ULONG_wrap (ref_count_ o + 1)))
  /\ (forall o,
        snd (Release o) = ULONG_wrap (ref_count_ o - 1)
        /\ (fst (Release o) = None <-> snd (Release o) = 0%Z)
        /\ (fst (Release o) = None <-> ULONG_wrap (ref_count_ o) = 1%Z)
        /\ match fst (Release o) with
           | Some o' => ref_count_ o' = snd (Release o)
           | None => True
           end)
  /\ (forall ops, (Z.of_nat (length ops) < 2 ^ 32 - 1)%Z ->
        match run_ops ops (Some SessionNotifier_new) with
        | Some o =>
            ref_count_ o = outstanding 1 ops
            /\ forall k, k <= length ops -> (0 < outstanding 1 (take k ops))%Z
        | None =>
            exists k, ops !! k = Some OpRelease
                      /\ outstanding 1 (take (S k) ops) = 0%Z
                      /\ forall j, j <= k -> (0 < outstanding 1 (take j ops))%Z
        end).
Proof.
  split; [reflexivity|]. split; [reflexivity|]. split.
  - intros o. split; [apply Release_count|]. split; [apply Release_deleted_iff|].
    split.
    + rewrite Release_deleted_iff, Release_count. apply ULONG_wrap_pred_zero.
    + destruct (fst (Release o)) eqn:E; [|exact I].
      apply Release_survives in E. tauto.
  - intros ops Hlen. apply run_ops_outstanding; lia.
Qed.

(** Two references taken and three dropped: the third [Release] deletes. *)
Lemma Release_destroys_exactly_at_zero_witness :
  run_ops [OpAddRef; OpAddRef; OpRelease; OpRelease] (Some SessionNotifier_new)
    = Some {| ref_count_ := 1 |}
  /\ exists k, [OpAddRef; OpRelease; OpRelease; OpAddRef] !! k = Some OpRelease
            /\ outstanding 1 (take (S k) [OpAddRef; OpRelease; OpRelease; OpAddRef]) = 0%Z
            /\ forall j, j <= k ->
                 (0 < outstanding 1 (take j [OpAddRef; OpRelease; OpRelease; OpAddRef]))%Z.
Proof.
  split; [reflexivity|].
  destruct Release_destroys_exactly_at_zero as (_ & _ & _ & H).
  exact (H [OpAddRef; OpRelease; OpRelease; OpAddRef] ltac:(simpl; lia)).
Defined.

(** ** The capability query of the notifier *)

(** C9, as stated, fails: with a null out-pointer the query for the identity
    capability does not succeed, it returns E_POINTER. *)
Lemma QueryInterface_null_out_pointer_refutes :
  ~ (forall (iu ia : GUID) this riid ppv o,
       let r := QueryInterface iu ia this riid ppv o in
       (SUCCEEDED (qr_hresult r) = true <-> (riid = iu \/ riid = ia))
       /\ (riid = iu \/ riid = ia ->
           qr_hresult r = S_OK /\ qr_out r = Some (Some this)
           /\ qr_object r = fst (AddRef o))
       /\ (riid <> iu -> riid <> ia -> qr_hresult r = E_NOINTERFACE)).
Proof.
  intros H.
  destruct (H 0xC000000000000046%N 0x641DD20B4D4149CCABA3174B9477BB08%N
              7 0xC000000000000046%N false SessionNotifier_new) as (_ & Hs & _).
  destruct (Hs (or_introl eq_refl)) as (Hhr & _).
  discriminate Hhr.
Qed.

(** C9, amended.  Called with a non-null out-pointer, the capability query
    succeeds exactly for the identity capability and the session-creation
    notification capability; on those it returns S_OK, stores the object
    through the out-pointer and increments the reference count; for every
    other identifier it returns E_NOINTERFACE, stores null and leaves the
    count alone.  Called with a null out-pointer it returns E_POINTER for
    every identifier and changes nothing. *)
Theorem QueryInterface_capabilities :
  forall (iu ia : GUID) this riid o,
    let r := QueryInterface iu ia this riid true o in
    let supported := ((riid =? iu)%N || (riid =? ia)%N) in
    (SUCCEEDED (qr_hresult r) = true <-> (riid = iu \/ riid = ia))
    /\ qr_hresult r = (if supported then S_OK else E_NOINTERFACE)
    /\ qr_out r = (if supported then Some (Some this) else Some None)
    /\ ref_count_ (qr_object r)
       = (if supported then ULONG_wrap (ref_count_ o + 1) else ref_count_ o)
    /\ QueryInterface iu ia this riid false o
       = {| qr_object := o; qr_hresult := E_POINTER; qr_out := None |}.
Proof.
  intros iu ia this riid o. cbv zeta.
  unfold QueryInterface. simpl negb. cbv iota.
  destruct (N.eqb_spec riid iu) as [E1|E1];
    [| destruct (N.eqb_spec riid ia) as [E2|E2] ]; simpl;
    repeat split; auto; try discriminate.
  intros [?|?]; contradiction.
Qed.

(** ** Bookkeeping: what each primitive does to the world *)

#[local] Arguments AddRef : simpl never.
#[local] Arguments Release : simpl never.

Lemma events_since_app w w' evs :
  trace w' = trace w ++ evs -> events_since w w' = evs.
Proof. intros H. unfold events_since. rewrite H. apply drop_app_length. Qed.

Lemma ducking_calls_app t1 t2 :
  ducking_calls (t1 ++ t2) = ducking_calls t1 ++ ducking_calls t2.
Proof. apply flat_map_app. Qed.

Lemma trace_obj_AddRef o w : trace (obj_AddRef o w) = trace w ++ [EvAddRef o].
Proof.
  unfold obj_AddRef. destruct o; try reflexivity.
  cbn [notifiers log]. destruct (notifiers w !! h); reflexivity.
Qed.

Lemma trace_obj_Release o w : trace (obj_Release o w) = trace w ++ [EvRelease o].
Proof.
  unfold obj_Release. destruct o; try reflexivity.
  cbn [notifiers log]. destruct (notifiers w !! h) as [obj|]; [|reflexivity].
  destruct (fst (Release obj)); reflexivity.
Qed.

Lemma trace_SafeRelease p w :
  trace (SafeRelease p w)
  = trace w ++ match p with Some o => [EvRelease o] | None => [] end.
Proof.
  destruct p; simpl; [apply trace_obj_Release | symmetry; apply app_nil_r].
Qed.

Lemma trace_SetDuckingPreference P s w :
  trace (SetDuckingPreference P s w) = trace w ++ [EvSetDuckingPreference s].
Proof.
  unfold SetDuckingPreference. destruct (SUCCEEDED _); reflexivity.
Qed.

Lemma trace_iter_AddRef o k w :
  trace (Nat.iter k (obj_AddRef o) w) = trace w ++ repeat (EvAddRef o) k.
Proof.
  induction k as [|k IH]; simpl.
  - symmetry; apply app_nil_r.
  - rewrite trace_obj_AddRef, IH, <- app_assoc. f_equal.
    symmetry. apply repeat_cons.
Qed.

Lemma opted_out_obj_AddRef o w : opted_out (obj_AddRef o w) = opted_out w.
Proof.
  unfold obj_AddRef. destruct o; try reflexivity.
  cbn [notifiers log]. destruct (notifiers w !! h); reflexivity.
Qed.

Lemma opted_out_obj_Release o w : opted_out (obj_Release o w) = opted_out w.
Proof.
  unfold obj_Release. destruct o; try reflexivity.
  cbn [notifiers log]. destruct (notifiers w !! h) as [obj|]; [|reflexivity].
  destruct (fst (Release obj)); reflexivity.
Qed.

Lemma opted_out_SafeRelease p w : opted_out (SafeRelease p w) = opted_out w.
Proof. destruct p; simpl; [apply opted_out_obj_Release | reflexivity]. Qed.

Lemma opted_out_iter_AddRef o k w :
  opted_out (Nat.iter k (obj_AddRef o) w) = opted_out w.
Proof.
  induction k as [|k IH]; simpl; [reflexivity|].
  rewrite opted_out_obj_AddRef. exact IH.
Qed.

Lemma next_notifier_obj_AddRef o w : next_notifier (obj_AddRef o w) = next_notifier w.
Proof.
  unfold obj_AddRef. destruct o; try reflexivity.
  cbn [notifiers log]. destruct (notifiers w !! h); reflexivity.
Qed.

Lemma next_notifier_obj_Release o w : next_notifier (obj_Release o w) = next_notifier w.
Proof.
  unfold obj_Release. destruct o; try reflexivity.
  cbn [notifiers log]. destruct (notifiers w !! h) as [obj|]; [|reflexivity].
  destruct (fst (Release obj)); reflexivity.
Qed.

Lemma next_notifier_SafeRelease p w : next_notifier (SafeRelease p w) = next_notifier w.
Proof. destruct p; simpl; [apply next_notifier_obj_Release | reflexivity]. Qed.

Lemma next_notifier_iter_AddRef o k w :
  next_notifier (Nat.iter k (obj_AddRef o) w) = next_notifier w.
Proof.
  induction k as [|k IH]; simpl; [reflexivity|].
  rewrite next_notifier_obj_AddRef. exact IH.
Qed.

Lemma next_notifier_SetDuckingPreference P s w :
  next_notifier (SetDuckingPreference P s w) = next_notifier w.
Proof. unfold SetDuckingPreference. destruct (SUCCEEDED _); reflexivity. Qed.

Lemma notifiers_SetDuckingPreference P s w :
  notifiers (SetDuckingPreference P s w) = notifiers w.
Proof. unfold SetDuckingPreference. destruct (SUCCEEDED _); reflexivity. Qed.

(** Calls on one object leave the other notifiers alone. *)
Lemma notifiers_obj_AddRef_other o w (n : handle) :
  o <> Notifier n -> notifiers (obj_AddRef o w) !! n = notifiers w !! n.
Proof.
  intros Hne. unfold obj_AddRef. destruct o; try reflexivity.
  cbn [notifiers log]. destruct (notifiers w !! h) eqn:E; [|reflexivity].
  simpl. apply lookup_insert_ne. congruence.
Qed.

Lemma notifiers_obj_Release_other o w (n : handle) :
  o <> Notifier n -> notifiers (obj_Release o w) !! n = notifiers w !! n.
Proof.
  intros Hne. unfold obj_Release. destruct o; try reflexivity.
  cbn [notifiers log]. destruct (notifiers w !! h) as [obj|] eqn:E; [|reflexivity].
  destruct (fst (Release obj)); simpl.
  - apply lookup_insert_ne. congruence.
  - apply lookup_delete_ne. congruence.
Qed.

Lemma notifiers_SafeRelease_other p w (n : handle) :
  p <> Some (Notifier n) -> notifiers (SafeRelease p w) !! n = notifiers w !! n.
Proof.
  intros Hne. destruct p; simpl; [|reflexivity].
  apply notifiers_obj_Release_other. congruence.
Qed.

Lemma notifiers_iter_AddRef_other o k w (n : handle) :
  o <> Notifier n -> notifiers (Nat.iter k (obj_AddRef o) w) !! n = notifiers w !! n.
Proof.
  intros Hne. induction k as [|k IH]; simpl; [reflexivity|].
  rewrite notifiers_obj_AddRef_other by exact Hne. exact IH.
Qed.

(** ** Composing the effects of calls *)

#[local] Arguments SafeRelease : simpl never.
#[local] Arguments obj_AddRef : simpl never.
#[local] Arguments obj_Release : simpl never.
#[local] Arguments SetDuckingPreference : simpl never.

Lemma granted_app P a b : granted P (a ++ b) = granted P a ∪ granted P b.
Proof. unfold granted. rewrite List.filter_app. apply list_to_set_app_L. Qed.

Lemma granted_nil P : granted P [] = ∅.
Proof. reflexivity. Qed.

Lemma pass_effect_refl P w : pass_effect P w w [].
Proof.
  split.
  - exists []. split; [symmetry; apply app_nil_r | reflexivity].
  - rewrite granted_nil. set_solver.
Qed.

Lemma pass_effect_trans P w w1 w2 c1 c2 :
  pass_effect P w w1 c1 -> pass_effect P w1 w2 c2 -> pass_effect P w w2 (c1 ++ c2).
Proof.
  intros [(e1 & Ht1 & Hc1) Ho1] [(e2 & Ht2 & Hc2) Ho2]. split.
  - exists (e1 ++ e2). split.
    + rewrite Ht2, Ht1, app_assoc. reflexivity.
    + rewrite ducking_calls_app, Hc1, Hc2. reflexivity.
  - rewrite Ho2, Ho1, granted_app. set_solver.
Qed.

Lemma pass_effect_nil_trans P w w1 w2 :
  pass_effect P w w1 [] -> pass_effect P w1 w2 [] -> pass_effect P w w2 [].
Proof. intros H1 H2. exact (pass_effect_trans P w w1 w2 [] [] H1 H2). Qed.

Lemma pass_effect_silent P w w' evs :
  trace w' = trace w ++ evs -> ducking_calls evs = [] -> opted_out w' = opted_out w ->
  pass_effect P w w' [].
Proof.
  intros Ht Hc Ho. split.
  - exists evs. auto.
  - rewrite Ho, granted_nil. set_solver.
Qed.

Lemma pass_effect_SafeRelease P p w : pass_effect P w (SafeRelease p w) [].
Proof.
  eapply pass_effect_silent.
  - apply trace_SafeRelease.
  - destruct p; reflexivity.
  - apply opted_out_SafeRelease.
Qed.

Lemma pass_effect_obj_AddRef P o w : pass_effect P w (obj_AddRef o w) [].
Proof.
  eapply pass_effect_silent;
    [apply trace_obj_AddRef | reflexivity | apply opted_out_obj_AddRef].
Qed.

Lemma pass_effect_obj_Release P o w : pass_effect P w (obj_Release o w) [].
Proof.
  eapply pass_effect_silent;
    [apply trace_obj_Release | reflexivity | apply opted_out_obj_Release].
Qed.

Lemma ducking_calls_repeat_AddRef o k : ducking_calls (repeat (EvAddRef o) k) = [].
Proof. induction k as [|k IH]; simpl; auto. Qed.

Lemma pass_effect_SetDuckingPreference P s w :
  pass_effect P w (SetDuckingPreference P s w) [s].
Proof.
  split.
  - exists [EvSetDuckingPreference s]. split;
      [apply trace_SetDuckingPreference | reflexivity].
  - unfold SetDuckingPreference, granted, log. cbn [List.filter].
    destruct (SUCCEEDED (set_ducking_preference P s)); cbn [opted_out]; set_solver.
Qed.

Lemma pass_effect_calls P w w' calls :
  pass_effect P w w' calls -> ducking_calls (events_since w w') = calls.
Proof.
  intros [(evs & Ht & Hc) _]. rewrite (events_since_app _ _ _ Ht). exact Hc.
Qed.

(** Threading a world through a loop adds up the calls of the iterations. *)
Lemma pass_effect_fold {I} P (f : World -> I -> World) (E : I -> list handle) :
  (forall w i, pass_effect P w (f w i) (E i)) ->
  forall l w, pass_effect P w (fold_left f l w) (flat_map E l).
Proof.
  intros Hf l. induction l as [|i l IH]; intros w; simpl.
  - apply pass_effect_refl.
  - eapply pass_effect_trans; [apply Hf | apply IH].
Qed.

Lemma heap_frame_refl w : heap_frame w w.
Proof. split; auto. Qed.

Lemma heap_frame_trans w w1 w2 :
  heap_frame w w1 -> heap_frame w1 w2 -> heap_frame w w2.
Proof.
  intros [Hn1 Hh1] [Hn2 Hh2]. split; [lia|].
  intros n Hn. rewrite Hh2 by lia. apply Hh1. exact Hn.
Qed.

Lemma heap_frame_same w w' :
  next_notifier w' = next_notifier w -> notifiers w' = notifiers w -> heap_frame w w'.
Proof. intros Hn Hh. split; [lia|]. intros n _. rewrite Hh. reflexivity. Qed.

Lemma notifiers_SafeRelease_platform p w :
  (forall n, p <> Some (Notifier n)) -> notifiers (SafeRelease p w) = notifiers w.
Proof.
  intros Hp. destruct p as [o|]; [|reflexivity].
  destruct o; try reflexivity. exfalso. exact (Hp h eq_refl).
Qed.

(** ** The notification callback *)

Lemma OnSessionCreated_null P w : OnSessionCreated P None w = (w, Returned S_OK).
Proof. reflexivity. Qed.

(** The calls of the callback: it opts the new session out when its process
    id was read and is the current one, and touches no other session. *)
Lemma OnSessionCreated_effect P s w :
  pass_effect P w (fst (OnSessionCreated P (Some s) w))
              (if owned_by_current P s then [s] else [])
  /\ notifiers (fst (OnSessionCreated P (Some s) w)) = notifiers w
  /\ next_notifier (fst (OnSessionCreated P (Some s) w)) = next_notifier w.
Proof.
  unfold OnSessionCreated, owned_by_current, pid_read.
  destruct (query_control2 P s) as [hr c2]. simpl fst. simpl snd.
  destruct (SUCCEEDED hr); simpl andb.
  - destruct c2; simpl andb.
    + destruct (get_process_id P s) as [hr_pid pid]. simpl fst. simpl snd.
      destruct (SUCCEEDED hr_pid); simpl andb.
      * destruct (pid =? current_pid P)%Z; simpl fst; split.
        -- change [s] with ([s] ++ []). eapply pass_effect_trans;
             [apply pass_effect_SetDuckingPreference | apply pass_effect_SafeRelease].
        -- rewrite next_notifier_SafeRelease, next_notifier_SetDuckingPreference.
           rewrite notifiers_SafeRelease_platform by (intros n; discriminate).
           rewrite notifiers_SetDuckingPreference. auto.
        -- apply pass_effect_SafeRelease.
        -- rewrite next_notifier_SafeRelease.
           rewrite notifiers_SafeRelease_platform by (intros n; discriminate). auto.
      * simpl fst. split; [apply pass_effect_SafeRelease|].
        rewrite next_notifier_SafeRelease.
        rewrite notifiers_SafeRelease_platform by (intros n; discriminate). auto.
    + simpl fst. split; [apply pass_effect_refl | auto].
  - simpl fst. split; [apply pass_effect_SafeRelease|].
    rewrite next_notifier_SafeRelease.
    rewrite notifiers_SafeRelease_platform by (intros n; destruct c2; discriminate).
    auto.
Qed.

(** When a successful query for the control interface leaves a non-null
    pointer, the callback returns S_OK whatever else happens. *)
Lemma OnSessionCreated_returns_S_OK P new_session w :
  (forall s, new_session = Some s ->
             SUCCEEDED (fst (query_control2 P s)) = true ->
             snd (query_control2 P s) = true) ->
  snd (OnSessionCreated P new_session w) = Returned S_OK.
Proof.
  intros Hqi. destruct new_session as [s|]; [|reflexivity].
  specialize (Hqi s eq_refl). unfold OnSessionCreated.
  destruct (query_control2 P s) as [hr c2]. simpl in Hqi.
  destruct (SUCCEEDED hr); [|reflexivity].
  rewrite (Hqi eq_refl). destruct (get_process_id P s). reflexivity.
Qed.

(** C10.  OnSessionCreated returns S_OK on every invocation by a subsystem
    whose session objects honour the contract of QueryInterface (a success
    code comes with a non-null interface pointer): when [new_session] is
    null, when the query for the control interface fails, when the process id
    cannot be read, and whether or not the preference is then set.  With a
    null argument it returns at once and nothing is changed. *)
Theorem OnSessionCreated_always_S_OK :
  forall P new_session w,
    (forall s, new_session = Some s ->
               SUCCEEDED (fst (query_control2 P s)) = true ->
               snd (query_control2 P s) = true) ->
    snd (OnSessionCreated P new_session w) = Returned S_OK
    /\ OnSessionCreated P None w = (w, Returned S_OK).
Proof.
  intros P new_session w Hqi. split.
  - apply OnSessionCreated_returns_S_OK. exact Hqi.
  - apply OnSessionCreated_null.
Qed.

(** Session 101 of the stub belongs to another process: S_OK all the same. *)
Lemma OnSessionCreated_always_S_OK_witness :
  snd (OnSessionCreated stub (Some 101) empty_world) = Returned S_OK.
Proof.
  refine (proj1 (OnSessionCreated_always_S_OK stub (Some 101) empty_world _)).
  intros s _ _. reflexivity.
Defined.

(** Outside that contract: were a query to report success and leave the
    pointer null, line 67 would call GetProcessId through it.
    (ApplyOptOutToExistingSessions tests [&& control2] before the same call.) *)
Theorem OnSessionCreated_null_control2 :
  SUCCEEDED (fst (query_control2 stub_null_control2 100)) = true
  /\ snd (query_control2 stub_null_control2 100) = false
  /\ OnSessionCreated stub_null_control2 (Some 100) empty_world
     = (empty_world, NullDereference)
  /\ snd (OnSessionCreated stub_null_control2 (Some 100) empty_world)
     <> Returned S_OK.
Proof. repeat split; try reflexivity. discriminate. Qed.

(** The synchronous pass meets the same answer and skips the session. *)
Example stub_null_control2_initialize :
  trace (ApplyOptOutToExistingSessions stub_null_control2 (Some 20) empty_world)
  = [ EvRelease (SessionControl 100); EvRelease (SessionControl 101);
      EvRelease (SessionEnumerator 30) ].
Proof. vm_compute. reflexivity. Qed.

(** ** The synchronous pass over one session manager *)

Lemma filter_flat_map {A B} (f : B -> bool) (g : A -> list B) l :
  List.filter f (flat_map g l) = flat_map (fun i => List.filter f (g i)) l.
Proof.
  induction l as [|a l IH]; simpl; [reflexivity|].
  rewrite List.filter_app, IH. reflexivity.
Qed.

Ltac heap_untouched :=
  repeat first
    [ rewrite next_notifier_SafeRelease
    | rewrite next_notifier_SetDuckingPreference
    | rewrite notifiers_SetDuckingPreference
    | rewrite notifiers_SafeRelease_platform
        by (intros ?; repeat match goal with |- context [if ?b then _ else _] =>
                                    destruct b end; discriminate) ];
  auto.

Lemma session_step_effect P e w i :
  pass_effect P w (session_step P e w i)
              (List.filter (owned_by_current P) (session_at P e i))
  /\ notifiers (session_step P e w i) = notifiers w
  /\ next_notifier (session_step P e w i) = next_notifier w.
Proof.
  unfold session_step, session_at.
  destruct (get_session P e i) as [hr [s|]].
  2:{ split; [apply pass_effect_SafeRelease | heap_untouched]. }
  destruct (SUCCEEDED hr).
  2:{ split; [apply pass_effect_SafeRelease | heap_untouched]. }
  cbn [List.filter]. unfold owned_by_current, pid_read.
  destruct (query_control2 P s) as [hr_qi c2]. cbn [fst snd fmap option_fmap option_map].
  destruct (SUCCEEDED hr_qi); cbn [andb].
  - destruct c2; cbn [andb].
    + destruct (get_process_id P s) as [hr_pid pid]. cbn [fst snd].
      destruct (SUCCEEDED hr_pid); cbn [andb].
      * destruct (pid =? current_pid P)%Z; split; try heap_untouched.
        -- change [s] with ([s] ++ ([] ++ [])).
           eapply pass_effect_trans; [apply pass_effect_SetDuckingPreference|].
           eapply pass_effect_trans; apply pass_effect_SafeRelease.
        -- eapply pass_effect_nil_trans; apply pass_effect_SafeRelease.
      * split; try heap_untouched.
        eapply pass_effect_nil_trans; apply pass_effect_SafeRelease.
    + split; try heap_untouched.
      eapply pass_effect_nil_trans; apply pass_effect_SafeRelease.
  - split; try heap_untouched.
    eapply pass_effect_nil_trans; apply pass_effect_SafeRelease.
Qed.

Lemma session_loop_heap P e l : forall w,
  notifiers (fold_left (session_step P e) l w) = notifiers w
  /\ next_notifier (fold_left (session_step P e) l w) = next_notifier w.
Proof.
  induction l as [|i l IH]; intros w; simpl; [auto|].
  destruct (IH (session_step P e w i)) as [Hh Hn].
  destruct (session_step_effect P e w i) as (_ & Hh' & Hn').
  rewrite Hh, Hn. auto.
Qed.

(** The synchronous pass calls SetDuckingPreference on the examined sessions
    of the current process, and on nothing else. *)
Lemma ApplyOptOutToExistingSessions_effect P m w :
  pass_effect P w (ApplyOptOutToExistingSessions P (Some m) w) (own_sessions P m)
  /\ notifiers (ApplyOptOutToExistingSessions P (Some m) w) = notifiers w
  /\ next_notifier (ApplyOptOutToExistingSessions P (Some m) w) = next_notifier w.
Proof.
  unfold ApplyOptOutToExistingSessions, own_sessions, examined_sessions.
  destruct (get_session_enumerator P m) as [hr [e|]].
  2:{ split; [apply pass_effect_refl | auto]. }
  destruct (FAILED hr).
  { split; [apply pass_effect_SafeRelease | heap_untouched]. }
  destruct (session_count P e) as [hr_count count]. cbn [fst snd].
  destruct (FAILED hr_count).
  { split; [apply pass_effect_SafeRelease | heap_untouched]. }
  rewrite filter_flat_map. split.
  - rewrite <- (app_nil_r (flat_map _ _)).
    eapply pass_effect_trans; [|apply pass_effect_SafeRelease].
    apply pass_effect_fold. intros w0 i. apply session_step_effect.
  - destruct (session_loop_heap P e (seq 0 (Z.to_nat count)) w) as [Hh Hn].
    heap_untouched.
Qed.

Lemma ApplyOptOutToExistingSessions_null P w :
  ApplyOptOutToExistingSessions P None w = w.
Proof. reflexivity. Qed.

(** ** Registering a notifier *)

Lemma ULONG_wrap_succ z : ULONG_wrap (ULONG_wrap z + 1) = ULONG_wrap (z + 1).
Proof. unfold ULONG_wrap. apply Zplus_mod_idemp_l. Qed.

Lemma ULONG_wrap_pred z : ULONG_wrap (ULONG_wrap z - 1) = ULONG_wrap (z - 1).
Proof. unfold ULONG_wrap. apply Zminus_mod_idemp_l. Qed.

Lemma notifiers_obj_AddRef_same n w c :
  notifiers w !! n = Some {| ref_count_ := c |} ->
  notifiers (obj_AddRef (Notifier n) w) !! n
  = Some {| ref_count_ := ULONG_wrap (c + 1) |}.
Proof.
  intros H. unfold obj_AddRef, log. cbn [notifiers]. rewrite H.
  unfold set_notifiers. cbn [notifiers]. apply lookup_insert_eq.
Qed.

Lemma notifiers_iter_AddRef_same n k : forall w c,
  notifiers w !! n = Some {| ref_count_ := ULONG_wrap c |} ->
  notifiers (Nat.iter k (obj_AddRef (Notifier n)) w) !! n
  = Some {| ref_count_ := ULONG_wrap (c + Z.of_nat k) |}.
Proof.
  induction k as [|k IH]; intros w c H.
  - simpl. rewrite Z.add_0_r. exact H.
  - change (Nat.iter (S k) (obj_AddRef (Notifier n)) w)
      with (obj_AddRef (Notifier n) (Nat.iter k (obj_AddRef (Notifier n)) w)).
    rewrite (notifiers_obj_AddRef_same _ _ _ (IH w c H)).
    rewrite ULONG_wrap_succ. do 2 f_equal. f_equal. lia.
Qed.

Lemma notifiers_obj_Release_same n w c :
  notifiers w !! n = Some {| ref_count_ := c |} ->
  notifiers (obj_Release (Notifier n) w) !! n
  = if (ULONG_wrap (c - 1) =? 0)%Z then None
    else Some {| ref_count_ := ULONG_wrap (c - 1) |}.
Proof.
  intros H. unfold obj_Release, log. cbn [notifiers]. rewrite H.
  unfold Release. cbn [fst ref_count_].
  destruct (ULONG_wrap (c - 1) =? 0)%Z; unfold set_notifiers; cbn [notifiers].
  - apply lookup_delete_eq.
  - apply lookup_insert_eq.
Qed.

(** Everything [RegisterForNewSessions] does for a non-null manager. *)
Lemma RegisterForNewSessions_spec P m this w :
  let n := next_notifier w in
  let k := register_addrefs P m in
  let ok := SUCCEEDED (register_notification P m) in
  let this' := fst (RegisterForNewSessions P (Some m) this w) in
  let w' := snd (RegisterForNewSessions P (Some m) this w) in
  trace w' = trace w
             ++ EvRegisterSessionNotification m n :: repeat (EvAddRef (Notifier n)) k
             ++ [if ok then EvAddRef (SessionManager m) else EvRelease (Notifier n)]
  /\ opted_out w' = opted_out w
  /\ next_notifier w' = S n
  /\ (forall n' : handle, n' <> n -> notifiers w' !! n' = notifiers w !! n')
  /\ notifiers w' !! n
     = (if ok then Some {| ref_count_ := ULONG_wrap (1 + Z.of_nat k) |}
        else if (ULONG_wrap (Z.of_nat k) =? 0)%Z then None
             else Some {| ref_count_ := ULONG_wrap (Z.of_nat k) |})
  /\ com_initialized_ this' = com_initialized_ this
  /\ registrations_ this'
     = registrations_ this ++ (if ok then [registration_of (m, n)] else []).
Proof.
  intros n k ok this' w'. subst this' w'.
  unfold RegisterForNewSessions, new_SessionNotifier, RegisterSessionNotification.
  fold n. fold k. cbn [fst snd]. fold ok.
  set (w1 := {| trace := trace w; opted_out := opted_out w;
                notifiers := <[n:=SessionNotifier_new]> (notifiers w);
                next_notifier := S n |}).
  set (w2 := Nat.iter k (obj_AddRef (Notifier n)) (log (EvRegisterSessionNotification m n) w1)).
  assert (Ht2 : trace w2 = trace w ++ EvRegisterSessionNotification m n
                                   :: repeat (EvAddRef (Notifier n)) k).
  { unfold w2. rewrite trace_iter_AddRef. cbn [trace log w1].
    rewrite <- app_assoc. reflexivity. }
  assert (Ho2 : opted_out w2 = opted_out w).
  { unfold w2. rewrite opted_out_iter_AddRef. reflexivity. }
  assert (Hn2 : next_notifier w2 = S n).
  { unfold w2. rewrite next_notifier_iter_AddRef. reflexivity. }
  assert (Hother2 : forall n' : handle, n' <> n -> notifiers w2 !! n' = notifiers w !! n').
  { intros n' Hne. unfold w2. rewrite notifiers_iter_AddRef_other by congruence.
    cbn [notifiers log w1]. apply lookup_insert_ne. congruence. }
  assert (Hsame2 : notifiers w2 !! n
                   = Some {| ref_count_ := ULONG_wrap (1 + Z.of_nat k) |}).
  { unfold w2. apply notifiers_iter_AddRef_same.
    cbn [notifiers log w1]. rewrite lookup_insert_eq. reflexivity. }
  destruct ok; cbn [fst snd].
  - rewrite trace_obj_AddRef, opted_out_obj_AddRef, next_notifier_obj_AddRef, Ht2.
    rewrite <- app_assoc. repeat split; auto.
  - rewrite trace_obj_Release, opted_out_obj_Release, next_notifier_obj_Release, Ht2.
    rewrite <- app_assoc. repeat split; auto.
    + intros n' Hne. rewrite notifiers_obj_Release_other by congruence. auto.
    + rewrite (notifiers_obj_Release_same _ _ _ Hsame2), ULONG_wrap_pred.
      replace (1 + Z.of_nat k - 1)%Z with (Z.of_nat k) by lia. reflexivity.
    + symmetry. apply app_nil_r.
Qed.

(** ** One endpoint, all endpoints, one call of Initialize *)

Lemma reg_growth_refl st : reg_growth st st [].
Proof.
  split; [apply heap_frame_refl|]. exists []. simpl.
  rewrite app_nil_r. repeat split; constructor.
Qed.

Lemma reg_growth_silent this w w' :
  heap_frame w w' -> reg_growth (this, w) (this, w') [].
Proof.
  intros Hf. split; [exact Hf|]. exists []. simpl.
  rewrite app_nil_r. repeat split; constructor.
Qed.

Lemma reg_growth_trans st st1 st2 s1 s2 :
  reg_growth st st1 s1 -> reg_growth st1 st2 s2 -> reg_growth st st2 (s1 ++ s2).
Proof.
  intros [Hf1 (n1 & Hr1 & Hm1 & Hd1 & Hl1)] [Hf2 (n2 & Hr2 & Hm2 & Hd2 & Hl2)].
  split; [eapply heap_frame_trans; eauto|].
  exists (n1 ++ n2). rewrite !map_app.
  destruct Hf1 as [Hle1 Hh1], Hf2 as [Hle2 Hh2].
  rewrite Forall_forall in Hl1, Hl2.
  split; [rewrite Hr2, Hr1, <- app_assoc; reflexivity|].
  split; [rewrite Hm1, Hm2; reflexivity|].
  split.
  - apply NoDup_app. split; [exact Hd1|]. split; [|exact Hd2].
    intros n Hin1 Hin2.
    destruct (Hl1 n Hin1) as [? _]. destruct (Hl2 n Hin2) as [? _]. lia.
  - apply Forall_app. split; apply Forall_forall; intros n Hin.
    + destruct (Hl1 n Hin) as [Hr Hlive]. split; [lia|].
      rewrite Hh2 by lia. exact Hlive.
    + destruct (Hl2 n Hin) as [Hr Hlive]. split; [lia|]. exact Hlive.
Qed.

Lemma reg_growth_fold {I} (f : AudioDuckingManager * World -> I -> AudioDuckingManager * World)
    (E : I -> list handle) :
  (forall st i, reg_growth st (f st i) (E i)) ->
  forall l st, reg_growth st (fold_left f l st) (flat_map E l).
Proof.
  intros Hf l. induction l as [|i l IH]; intros st; simpl.
  - apply reg_growth_refl.
  - eapply reg_growth_trans; [apply Hf | apply IH].
Qed.

Lemma heap_frame_SafeRelease_platform p w :
  (forall n, p <> Some (Notifier n)) -> heap_frame w (SafeRelease p w).
Proof.
  intros Hp. apply heap_frame_same.
  - apply next_notifier_SafeRelease.
  - apply notifiers_SafeRelease_platform. exact Hp.
Qed.

Lemma RegisterForNewSessions_growth P m this w :
  pass_effect P w (snd (RegisterForNewSessions P (Some m) this w)) []
  /\ com_initialized_ (fst (RegisterForNewSessions P (Some m) this w))
     = com_initialized_ this
  /\ reg_growth (this, w) (RegisterForNewSessions P (Some m) this w)
                (if subscribes P m then [m] else []).
Proof.
  destruct (RegisterForNewSessions_spec P m this w)
    as (Ht & Ho & Hn & Hother & Hsame & Hcom & Hregs).
  split; [|split; [exact Hcom|]].
  - eapply pass_effect_silent; [exact Ht| |exact Ho].
    simpl. rewrite ducking_calls_app, ducking_calls_repeat_AddRef.
    destruct (SUCCEEDED _); reflexivity.
  - split.
    + split; cbn [fst snd]; [rewrite Hn; lia|].
      intros n' Hlt. apply Hother. lia.
    + unfold subscribes.
      exists (if SUCCEEDED (register_notification P m)
              then [(m, next_notifier w)] else []).
      split; [rewrite Hregs; destruct (SUCCEEDED _); reflexivity|].
      destruct (SUCCEEDED (register_notification P m)); cbn [map fst snd].
      * split; [reflexivity|]. split; [apply NoDup_singleton|].
        constructor; [|constructor]. rewrite Hn, Hsame. split; [lia|eauto].
      * repeat split; constructor.
Qed.

(** What one iteration of the endpoint loop contributes. *)
Lemma device_step_effect P c st i :
  pass_effect P (snd st) (snd (device_step P c st i))
              (flat_map (own_sessions P) (endpoint_manager P c i))
  /\ com_initialized_ (fst (device_step P c st i)) = com_initialized_ (fst st)
  /\ reg_growth st (device_step P c st i)
                (List.filter (subscribes P) (endpoint_manager P c i)).
Proof.
  destruct st as [this w]. unfold device_step, endpoint_manager.
  destruct (collection_item P c i) as [hr [d|]]; cbn [non_null fmap option_fmap option_map].
  2:{ rewrite andb_false_r. cbn [fst snd SafeRelease].
      split; [apply pass_effect_refl|]. split; [reflexivity|]. apply reg_growth_refl. }
  destruct (SUCCEEDED hr); cbn [andb].
  2:{ cbn [fst snd flat_map List.filter].
      split; [apply pass_effect_SafeRelease|]. split; [reflexivity|].
      apply reg_growth_silent. apply heap_frame_SafeRelease_platform.
      intros n; discriminate. }
  unfold CreateSessionManagerForDevice.
  destruct (activate P d) as [hr_act [m|]]; cbn [fmap option_fmap option_map].
  2:{ destruct (FAILED hr_act); cbn [non_null fst snd flat_map List.filter SafeRelease].
      all: split; [apply pass_effect_SafeRelease|]; split; [reflexivity|].
      all: apply reg_growth_silent; apply heap_frame_SafeRelease_platform.
      all: intros n; discriminate. }
  destruct (FAILED hr_act); cbn [non_null].
  { cbn [fst snd flat_map List.filter]. split; [|split; [reflexivity|]].
    - eapply pass_effect_nil_trans; apply pass_effect_SafeRelease.
    - apply reg_growth_silent. eapply heap_frame_trans;
        apply heap_frame_SafeRelease_platform; intros n; discriminate. }
  cbn [flat_map List.filter]. rewrite app_nil_r.
  destruct (ApplyOptOutToExistingSessions_effect P m w) as (Hpa & Hha & Hna).
  set (wa := ApplyOptOutToExistingSessions P (Some m) w) in *.
  destruct (RegisterForNewSessions_growth P m this wa) as (Hpr & Hcr & Hgr).
  destruct (RegisterForNewSessions P (Some m) this wa) as [this1 w1] eqn:Er.
  cbn [fst snd] in *.
  split; [|split; [exact Hcr|]].
  - rewrite <- (app_nil_r (own_sessions P m)).
    eapply pass_effect_trans; [exact Hpa|].
    eapply pass_effect_nil_trans; [exact Hpr | apply pass_effect_SafeRelease].
  - replace (if subscribes P m then [m] else [])
      with ([] ++ (if subscribes P m then [m] else []) ++ []) by (rewrite app_nil_r; reflexivity).
    eapply reg_growth_trans.
    { apply (reg_growth_silent this w wa). apply heap_frame_same; auto. }
    eapply reg_growth_trans; [exact Hgr|].
    apply reg_growth_silent. apply heap_frame_SafeRelease_platform.
    intros n; discriminate.
Qed.

Lemma device_loop_effect P c l : forall st,
  pass_effect P (snd st) (snd (fold_left (device_step P c) l st))
              (flat_map (fun i => flat_map (own_sessions P) (endpoint_manager P c i)) l)
  /\ com_initialized_ (fst (fold_left (device_step P c) l st)) = com_initialized_ (fst st).
Proof.
  induction l as [|i l IH]; intros st; simpl.
  - split; [apply pass_effect_refl | reflexivity].
  - destruct (device_step_effect P c st i) as (Hp & Hc & _).
    destruct (IH (device_step P c st i)) as [Hp' Hc'].
    split; [eapply pass_effect_trans; eauto | congruence].
Qed.

Lemma flat_map_flat_map {A B C} (f : B -> list C) (g : A -> list B) l :
  flat_map f (flat_map g l) = flat_map (fun i => flat_map f (g i)) l.
Proof.
  induction l as [|a l IH]; simpl; [reflexivity|].
  rewrite flat_map_app, IH. reflexivity.
Qed.

Lemma initial_pass_calls_eq P :
  initial_pass_calls P = flat_map (own_sessions P) (activated_managers P).
Proof. reflexivity. Qed.

(** The endpoint pass: sessions opted out, registrations added. *)
Lemma SetupForAllRenderDevices_effect P this w :
  pass_effect P w (snd (SetupForAllRenderDevices P this w)) (initial_pass_calls P)
  /\ com_initialized_ (fst (SetupForAllRenderDevices P this w)) = com_initialized_ this
  /\ reg_growth (this, w) (SetupForAllRenderDevices P this w) (subscribed_managers P).
Proof.
  rewrite initial_pass_calls_eq.
  unfold SetupForAllRenderDevices, subscribed_managers, activated_managers, render_collection.
  destruct (co_create_instance P) as [hr [e|]].
  2:{ split; [apply pass_effect_refl|]. split; [reflexivity | apply reg_growth_refl]. }
  destruct (FAILED hr).
  { split; [apply pass_effect_SafeRelease|]. split; [reflexivity|].
    apply reg_growth_silent, heap_frame_SafeRelease_platform. intros n; discriminate. }
  destruct (enum_audio_endpoints P e) as [hr_enum [c|]].
  2:{ split; [apply pass_effect_SafeRelease|]. split; [reflexivity|].
      apply reg_growth_silent, heap_frame_SafeRelease_platform. intros n; discriminate. }
  destruct (FAILED hr_enum).
  { cbn [flat_map List.filter]. split; [|split; [reflexivity|]].
    - eapply pass_effect_nil_trans; apply pass_effect_SafeRelease.
    - apply reg_growth_silent. eapply heap_frame_trans;
        apply heap_frame_SafeRelease_platform; intros n; discriminate. }
  destruct (device_loop_effect P c (seq 0 (collection_count P c)) (this, w)) as [Hp Hc].
  pose proof (reg_growth_fold (device_step P c)
                (fun i => List.filter (subscribes P) (endpoint_manager P c i))
                (fun st i => proj2 (proj2 (device_step_effect P c st i)))
                (seq 0 (collection_count P c)) (this, w)) as Hg.
  destruct (fold_left (device_step P c) (seq 0 (collection_count P c)) (this, w))
    as [this1 w1] eqn:El.
  cbn [fst snd] in *.
  split; [|split; [exact Hc|]].
  - rewrite flat_map_flat_map.
    rewrite <- (app_nil_r (flat_map _ _)).
    eapply pass_effect_trans; [exact Hp|].
    eapply pass_effect_nil_trans; apply pass_effect_SafeRelease.
  - rewrite filter_flat_map.
    rewrite <- (app_nil_r (flat_map _ _)).
    eapply reg_growth_trans; [exact Hg|].
    apply reg_growth_silent. eapply heap_frame_trans;
      apply heap_frame_SafeRelease_platform; intros n; discriminate.
Qed.

Lemma reg_growth_same_registrations this this' w w' :
  registrations_ this' = registrations_ this -> heap_frame w w' ->
  reg_growth (this, w) (this', w') [].
Proof.
  intros Hr Hf. split; [exact Hf|]. exists []. cbn [fst snd map].
  rewrite app_nil_r. repeat split; auto; constructor.
Qed.

Lemma pass_effect_log P e w :
  ducking_calls [e] = [] -> pass_effect P w (log e w) [].
Proof. intros H. eapply pass_effect_silent; [reflexivity | exact H | reflexivity]. Qed.

(** One call of [Initialize]. *)
Lemma Initialize_effect P this w :
  pass_effect P w (snd (Initialize P this w)) (initial_pass_calls P)
  /\ com_initialized_ (fst (Initialize P this w))
     = com_initialized_ this || SUCCEEDED (co_initialize P)
  /\ reg_growth (this, w) (Initialize P this w) (subscribed_managers P).
Proof.
  unfold Initialize.
  set (st1 := if negb (com_initialized_ this) then _ else _).
  assert (H1 : pass_effect P w (snd st1) []
               /\ com_initialized_ (fst st1)
                  = com_initialized_ this || SUCCEEDED (co_initialize P)
               /\ registrations_ (fst st1) = registrations_ this
               /\ heap_frame w (snd st1)).
  { unfold st1. destruct (com_initialized_ this) eqn:Ec; cbn [negb].
    - cbn [fst snd orb].
      split; [apply pass_effect_refl|]. split; [exact Ec|].
      split; [reflexivity | apply heap_frame_refl].
    - assert (Hf : heap_frame w (log EvCoInitializeEx w))
        by (apply heap_frame_same; reflexivity).
      assert (Hp : pass_effect P w (log EvCoInitializeEx w) [])
        by (apply pass_effect_log; reflexivity).
      destruct (SUCCEEDED (co_initialize P)); cbn [orb].
      + cbn [fst snd]. auto.
      + destruct (co_initialize P =? RPC_E_CHANGED_MODE)%Z; cbn [fst snd]; auto. }
  destruct st1 as [this1 w1]. cbn [fst snd] in H1.
  destruct H1 as (Hp1 & Hc1 & Hr1 & Hf1).
  destruct (SetupForAllRenderDevices_effect P this1 w1) as (Hp & Hc & Hg).
  split; [|split].
  - exact (pass_effect_trans P _ _ _ [] _ Hp1 Hp).
  - rewrite Hc. exact Hc1.
  - exact (reg_growth_trans _ _ _ [] _
             (reg_growth_same_registrations this this1 w w1 Hr1 Hf1) Hg).
Qed.

(** Any number of calls, each against the subsystem as it then is. *)
Lemma Initialize_all_effect Ps : forall st,
  reg_growth st (Initialize_all Ps st) (flat_map subscribed_managers Ps)
  /\ com_initialized_ (fst (Initialize_all Ps st))
     = com_initialized_ (fst st) || existsb (fun P => SUCCEEDED (co_initialize P)) Ps.
Proof.
  induction Ps as [|P Ps IH]; intros st.
  - split; [apply reg_growth_refl | cbn; rewrite orb_false_r; reflexivity].
  - cbn [Initialize_all fold_left flat_map existsb].
    destruct (Initialize_effect P (fst st) (snd st)) as (_ & Hc & Hg).
    destruct (IH (Initialize P (fst st) (snd st))) as [Hg' Hc'].
    split.
    + eapply reg_growth_trans; [|exact Hg']. destruct st; exact Hg.
    + unfold Initialize_all in Hc'. rewrite Hc', Hc, orb_assoc. reflexivity.
Qed.

(** What has been recorded after construction and any number of calls: one
    registration per subscribed endpoint per call, all with non-null
    handles, each with its own live notifier. *)
Lemma recorded_registrations Ps w0 :
  exists recorded : list (handle * handle),
    registrations_ (fst (Initialize_all Ps (AudioDuckingManager_new, w0)))
    = map registration_of recorded
    /\ map fst recorded = flat_map subscribed_managers Ps
    /\ NoDup (map snd recorded)
    /\ Forall (fun n : handle =>
                 is_Some (notifiers (snd (Initialize_all Ps (AudioDuckingManager_new, w0))) !! n))
              (map snd recorded).
Proof.
  destruct (Initialize_all_effect Ps (AudioDuckingManager_new, w0))
    as [[_ (news & Hr & Hm & Hd & Hl)] _].
  exists news. cbn [fst snd registrations_ AudioDuckingManager_new app] in *.
  repeat split; auto.
  eapply Forall_impl; [exact Hl|]. cbn beta. intros n [_ H]. exact H.
Qed.

(** ** The destructor *)

Lemma release_registration_trace w mn :
  trace (release_registration w (registration_of mn)) = trace w ++ teardown_calls mn.
Proof.
  unfold release_registration, registration_of, teardown_calls,
    UnregisterSessionNotification.
  cbn [manager2 notifier fmap option_fmap option_map].
  rewrite !trace_SafeRelease. cbn [trace log].
  rewrite <- !app_assoc. reflexivity.
Qed.

Lemma destroy_trace this w recorded :
  registrations_ this = map registration_of recorded ->
  trace (snd (AudioDuckingManager_destroy this w))
  = trace w ++ flat_map teardown_calls recorded
            ++ (if com_initialized_ this then [EvCoUninitialize] else []).
Proof.
  intros Hr. unfold AudioDuckingManager_destroy. rewrite Hr.
  assert (Hfold : forall l w0,
             trace (fold_left release_registration (map registration_of l) w0)
             = trace w0 ++ flat_map teardown_calls l).
  { intros l. induction l as [|mn l IH]; intros w0; cbn [map fold_left flat_map].
    - symmetry; apply app_nil_r.
    - rewrite IH, release_registration_trace, <- app_assoc. reflexivity. }
  destruct (com_initialized_ this); cbn [snd trace log].
  - rewrite Hfold, <- app_assoc. reflexivity.
  - rewrite Hfold, app_nil_r. reflexivity.
Qed.

Lemma destroy_state this w :
  registrations_ (fst (AudioDuckingManager_destroy this w)) = []
  /\ com_initialized_ (fst (AudioDuckingManager_destroy this w)) = false.
Proof.
  unfold AudioDuckingManager_destroy.
  destruct (com_initialized_ this) eqn:E; cbn [fst registrations_ com_initialized_]; auto.
Qed.

(** ** The ownership filter *)

Lemma owned_by_current_iff P s :
  owned_by_current P s = true
  <-> pid_read P s = true /\ snd (get_process_id P s) = current_pid P.
Proof.
  unfold owned_by_current. rewrite andb_true_iff, Z.eqb_eq. reflexivity.
Qed.

Lemma in_own_sessions P m s :
  In s (own_sessions P m)
  <-> In s (examined_sessions P m)
      /\ pid_read P s = true /\ snd (get_process_id P s) = current_pid P.
Proof. unfold own_sessions. rewrite filter_In, owned_by_current_iff. reflexivity. Qed.

Lemma in_initial_pass_calls P s :
  In s (initial_pass_calls P)
  <-> (exists m, In m (activated_managers P) /\ In s (examined_sessions P m))
      /\ pid_read P s = true /\ snd (get_process_id P s) = current_pid P.
Proof.
  rewrite initial_pass_calls_eq, in_flat_map. split.
  - intros (m & Hm & Hs). apply in_own_sessions in Hs. destruct Hs as [He Ho].
    split; [exists m; auto | exact Ho].
  - intros [(m & Hm & He) Ho]. exists m. split; [exact Hm|].
    apply in_own_sessions. auto.
Qed.

Lemma OnSessionCreated_calls P new_session w :
  ducking_calls (events_since w (fst (OnSessionCreated P new_session w)))
  = match new_session with
    | Some s => if owned_by_current P s then [s] else []
    | None => []
    end.
Proof.
  destruct new_session as [s|].
  - apply (pass_effect_calls P). apply OnSessionCreated_effect.
  - rewrite OnSessionCreated_null. cbn [fst].
    apply (pass_effect_calls P). apply pass_effect_refl.
Qed.

(** C1.  SetDuckingPreference is called on session [s]
    - by the synchronous pass over a session manager, exactly when [s] is
      among the sessions the pass examines, its process id was read and is
      the current process id;
    - by a whole call of Initialize, exactly when that holds for one of the
      managers it activates;
    - by the OnSessionCreated callback, exactly when [s] is the new session,
      its process id was read and is the current process id. *)
Theorem ownership_filter :
  forall P s,
    (forall m w,
        In s (ducking_calls (events_since w (ApplyOptOutToExistingSessions P (Some m) w)))
        <-> In s (examined_sessions P m)
            /\ pid_read P s = true /\ snd (get_process_id P s) = current_pid P)
    /\ (forall this w,
          In s (ducking_calls (events_since w (snd (Initialize P this w))))
          <-> (exists m, In m (activated_managers P) /\ In s (examined_sessions P m))
              /\ pid_read P s = true /\ snd (get_process_id P s) = current_pid P)
    /\ (forall new_session w,
          In s (ducking_calls (events_since w (fst (OnSessionCreated P new_session w))))
          <-> new_session = Some s
              /\ pid_read P s = true /\ snd (get_process_id P s) = current_pid P).
Proof.
  intros P s. split; [|split].
  - intros m w.
    destruct (ApplyOptOutToExistingSessions_effect P m w) as (Hp & _).
    rewrite (pass_effect_calls _ _ _ _ Hp). apply in_own_sessions.
  - intros this w.
    destruct (Initialize_effect P this w) as (Hp & _).
    rewrite (pass_effect_calls _ _ _ _ Hp). apply in_initial_pass_calls.
  - intros new_session w. rewrite OnSessionCreated_calls.
    destruct new_session as [s'|].
    + destruct (owned_by_current P s') eqn:Eo.
      * apply owned_by_current_iff in Eo. split.
        -- intros [->|[]]. auto.
        -- intros [E _]. inversion E. left; reflexivity.
      * split; [intros []|]. intros [E Ho]. inversion E; subst s'.
        apply owned_by_current_iff in Ho. congruence.
    + split; [intros [] | intros [E _]; discriminate].
Qed.

(** In the stub, session 100 is the current process's and session 101 is not. *)
Lemma ownership_filter_witness :
  In 100 (ducking_calls
            (events_since empty_world
               (snd (Initialize stub AudioDuckingManager_new empty_world))))
  /\ ~ In 101 (ducking_calls
                 (events_since empty_world
                    (fst (OnSessionCreated stub (Some 101) empty_world)))).
Proof.
  split.
  - apply (proj1 (proj2 (ownership_filter stub 100))).
    split; [exists 20; split; vm_compute; auto | split; reflexivity].
  - intros H. apply (proj2 (proj2 (ownership_filter stub 101))) in H.
    destruct H as (_ & _ & H). discriminate H.
Defined.

(** ** Sessions of other processes *)

Lemma granted_subset P calls (s : handle) : s ∈ granted P calls -> In s calls.
Proof.
  unfold granted. rewrite elem_of_list_to_set, list_elem_of_In, filter_In. tauto.
Qed.

Lemma pass_effect_untouched P w w' calls (s : handle) :
  pass_effect P w w' calls -> ~ In s calls ->
  ~ In s (ducking_calls (events_since w w')) /\ (s ∈ opted_out w' <-> s ∈ opted_out w).
Proof.
  intros Hp Hn. split.
  - rewrite (pass_effect_calls _ _ _ _ Hp). exact Hn.
  - destruct Hp as [_ Ho]. rewrite Ho, elem_of_union. split; [|auto].
    intros [H|H]; [exact H|]. apply granted_subset in H. contradiction.
Qed.

(** C2.  A session whose owning process id is not the current one is never
    passed to SetDuckingPreference, neither by Initialize nor by the
    callback, and its ducking preference is the same before and after. *)
Theorem other_process_sessions_untouched :
  forall P (s : handle),
    snd (get_process_id P s) <> current_pid P ->
    (forall this w,
        ~ In s (ducking_calls (events_since w (snd (Initialize P this w))))
        /\ (s ∈ opted_out (snd (Initialize P this w)) <-> s ∈ opted_out w))
    /\ (forall new_session w,
          ~ In s (ducking_calls (events_since w (fst (OnSessionCreated P new_session w))))
          /\ (s ∈ opted_out (fst (OnSessionCreated P new_session w)) <-> s ∈ opted_out w)).
Proof.
  intros P s Hpid. split.
  - intros this w. destruct (Initialize_effect P this w) as (Hp & _).
    apply (pass_effect_untouched _ _ _ _ _ Hp).
    rewrite in_initial_pass_calls. intros (_ & _ & H). contradiction.
  - intros [s'|] w.
    + destruct (OnSessionCreated_effect P s' w) as (Hp & _).
      apply (pass_effect_untouched _ _ _ _ _ Hp).
      destruct (owned_by_current P s') eqn:Eo; [|intros []].
      apply owned_by_current_iff in Eo. intros [->|[]]. tauto.
    + rewrite OnSessionCreated_null. cbn [fst].
      apply (pass_effect_untouched P _ _ [] _ (pass_effect_refl P w)). intros [].
Qed.

(** Session 101 of the stub belongs to process 123. *)
Lemma other_process_sessions_untouched_witness :
  ~ In 101 (ducking_calls
              (events_since empty_world
                 (snd (Initialize stub AudioDuckingManager_new empty_world))))
  /\ (101 ∈ opted_out (fst (OnSessionCreated stub (Some 101) empty_world))
      <-> 101 ∈ opted_out empty_world).
Proof.
  assert (H : snd (get_process_id stub 101) <> current_pid stub)
    by (vm_compute; discriminate).
  destruct (other_process_sessions_untouched stub 101 H) as [Hi Hc].
  split.
  - exact (proj1 (Hi AudioDuckingManager_new empty_world)).
  - exact (proj2 (Hc (Some 101) empty_world)).
Defined.

(** ** Teardown *)

(** C3.  The manager being what construction and any calls of Initialize
    have made it, its destructor makes, for every recorded registration in
    order, the call that unsubscribes the notifier from its session manager,
    then the Release of the notifier, then the Release of the session
    manager; after the last registration it calls CoUninitialize exactly when
    [com_initialized_] is set, which is when one of the CoInitializeEx calls
    of this instance succeeded; it makes no other call, and it leaves the
    registration list empty and the flag cleared. *)
Theorem destructor_teardown :
  forall Ps w0 w,
    let this := fst (Initialize_all Ps (AudioDuckingManager_new, w0)) in
    exists recorded : list (handle * handle),
      registrations_ this = map registration_of recorded
      /\ events_since w (snd (AudioDuckingManager_destroy this w))
         = flat_map (fun mn => [ EvUnregisterSessionNotification (fst mn) (snd mn);
                                 EvRelease (Notifier (snd mn));
                                 EvRelease (SessionManager (fst mn)) ]) recorded
           ++ (if com_initialized_ this then [EvCoUninitialize] else [])
      /\ com_initialized_ this = existsb (fun P => SUCCEEDED (co_initialize P)) Ps
      /\ registrations_ (fst (AudioDuckingManager_destroy this w)) = []
      /\ com_initialized_ (fst (AudioDuckingManager_destroy this w)) = false.
Proof.
  intros Ps w0 w this.
  destruct (recorded_registrations Ps w0) as (recorded & Hr & _).
  exists recorded. split; [exact Hr|]. split; [|split].
  - apply events_since_app. apply (destroy_trace this w recorded Hr).
  - unfold this.
    rewrite (proj2 (Initialize_all_effect Ps (AudioDuckingManager_new, w0))).
    reflexivity.
  - apply destroy_state.
Qed.

Example stub_teardown :
  let st := Initialize stub AudioDuckingManager_new empty_world in
  events_since (snd st) (snd (AudioDuckingManager_destroy (fst st) (snd st)))
  = [ EvUnregisterSessionNotification 20 0; EvRelease (Notifier 0);
      EvRelease (SessionManager 20);
      EvUnregisterSessionNotification 21 1; EvRelease (Notifier 1);
      EvRelease (SessionManager 21);
      EvCoUninitialize ].
Proof. vm_compute. reflexivity. Qed.

(** ** Failures stay local *)

Lemma in_activated_managers P m :
  In m (activated_managers P)
  <-> exists c i, render_collection P = Some c /\ i < collection_count P c
                  /\ In m (endpoint_manager P c i).
Proof.
  unfold activated_managers. destruct (render_collection P) as [c|].
  - rewrite in_flat_map. split.
    + intros (i & Hi & Hm). apply in_seq in Hi. exists c, i. split; [auto|]. split; [lia|auto].
    + intros (c' & i & Hc & Hi & Hm). inversion Hc; subst c'.
      exists i. split; [apply in_seq; lia | exact Hm].
  - split; [intros [] | intros (c & i & Hc & _); discriminate].
Qed.

(** C4.  [Initialize] is a total function into a manager and a world: it has
    no failure result and reaches no null dereference, whatever the
    subsystem answers.  What it does is decided endpoint by endpoint and
    session by session, each on its own answers: SetDuckingPreference is
    called on exactly the sessions of the current process found under the
    endpoints that could be activated, whether or not the call succeeds on
    the ones before; the preference changes on those where it succeeds; and
    one registration is appended for exactly the activated endpoints whose
    subscription succeeds.  So an endpoint that activates at some index is
    treated in full whatever happens at the other indices. *)
Theorem failures_skip_only_their_item :
  forall P this w,
    let this' := fst (Initialize P this w) in
    let w' := snd (Initialize P this w) in
    ducking_calls (events_since w w') = initial_pass_calls P
    /\ opted_out w' = opted_out w ∪ granted P (initial_pass_calls P)
    /\ (exists fresh : list (handle * handle),
          registrations_ this' = registrations_ this ++ map registration_of fresh
          /\ map fst fresh = subscribed_managers P)
    /\ (forall c i m,
          render_collection P = Some c -> i < collection_count P c ->
          In m (endpoint_manager P c i) ->
          (SUCCEEDED (register_notification P m) = true ->
           In (Some m) (map manager2 (registrations_ this')))
          /\ (forall s, In s (examined_sessions P m) ->
                        owned_by_current P s = true ->
                        In s (ducking_calls (events_since w w'))
                        /\ (SUCCEEDED (set_ducking_preference P s) = true ->
                            s ∈ opted_out w'))).
Proof.
  intros P this w this' w'. subst this' w'.
  destruct (Initialize_effect P this w) as (Hp & _ & [_ (fresh & Hr & Hm & _)]).
  pose proof (pass_effect_calls _ _ _ _ Hp) as Hcalls.
  destruct Hp as [_ Ho]. cbn [fst snd] in Hr.
  split; [exact Hcalls|]. split; [exact Ho|].
  split; [exists fresh; auto|].
  intros c i m Hc Hi Hin.
  assert (Hact : In m (activated_managers P))
    by (apply in_activated_managers; eauto).
  split.
  - intros Hsub. rewrite Hr, map_app, in_app_iff. right.
    rewrite map_map.
    assert (Hin' : In m (map fst fresh)).
    { rewrite Hm. unfold subscribed_managers. apply filter_In. auto. }
    apply in_map_iff in Hin'. destruct Hin' as (mn & <- & Hmn).
    apply in_map_iff. exists mn. auto.
  - intros s Hs Hown.
    assert (Hcall : In s (initial_pass_calls P)).
    { apply in_initial_pass_calls. apply owned_by_current_iff in Hown. eauto. }
    split; [rewrite Hcalls; exact Hcall|].
    intros Hset. rewrite Ho. apply elem_of_union_r.
    unfold granted. rewrite elem_of_list_to_set, list_elem_of_In. apply filter_In. auto.
Qed.

(** Three endpoints, the middle one cannot be activated: the third is
    registered all the same. *)
Lemma failures_skip_only_their_item_witness :
  In (Some 22) (map manager2
                  (registrations_ (fst (Initialize stub_partial AudioDuckingManager_new
                                          empty_world))))
  /\ endpoint_manager stub_partial 2 1 = [].
Proof.
  split; [|reflexivity].
  destruct (failures_skip_only_their_item stub_partial AudioDuckingManager_new empty_world)
    as (_ & _ & _ & H).
  apply (H 2 2 22); [reflexivity | vm_compute; lia | vm_compute; auto | reflexivity].
Defined.

Example stub_partial_registrations :
  map manager2 (registrations_ (fst (Initialize stub_partial AudioDuckingManager_new
                                       empty_world)))
  = [Some 20; Some 22].
Proof. vm_compute. reflexivity. Qed.

(** ** An unreachable subsystem *)

(** C5, as stated, fails: CoInitializeEx fails with E_OUTOFMEMORY, which is
    not RPC_E_CHANGED_MODE, and the endpoints are enumerated all the same;
    Initialize opts session 100 out and records two registrations. *)
Lemma Initialize_proceeds_after_failed_CoInitializeEx :
  ~ (forall P w,
       render_collection P = None
       \/ (FAILED (co_initialize P) = true /\ co_initialize P <> RPC_E_CHANGED_MODE) ->
       registrations_ (fst (Initialize P AudioDuckingManager_new w)) = []
       /\ ducking_calls (events_since w (snd (Initialize P AudioDuckingManager_new w))) = []).
Proof.
  intros H.
  destruct (H stub_com_failed empty_world) as [Hr _].
  - right. split; [reflexivity | discriminate].
  - vm_compute in Hr. discriminate Hr.
Qed.

Lemma render_collection_None P :
  render_collection P = None
  <-> snd (co_create_instance P) = None
      \/ FAILED (fst (co_create_instance P)) = true
      \/ exists e, snd (co_create_instance P) = Some e
                   /\ (snd (enum_audio_endpoints P e) = None
                       \/ FAILED (fst (enum_audio_endpoints P e)) = true).
Proof.
  unfold render_collection.
  destruct (co_create_instance P) as [hr [e|]]; cbn [fst snd].
  2:{ split; auto. }
  destruct (FAILED hr).
  { split; auto. }
  destruct (enum_audio_endpoints P e) as [hr_enum [c|]] eqn:Ee.
  - destruct (FAILED hr_enum) eqn:Ef.
    + split; [intros _|auto]. right; right. exists e. rewrite Ee. auto.
    + split; [discriminate|].
      intros [H|[H|(e' & He & [H|H])]]; try discriminate.
      * inversion He; subst e'. rewrite Ee in H. discriminate.
      * inversion He; subst e'. rewrite Ee in H. cbn in H. congruence.
  - split; [intros _|auto]. right; right. exists e. rewrite Ee. auto.
Qed.

Lemma SetupForAllRenderDevices_unavailable P this w :
  render_collection P = None ->
  notifiers (snd (SetupForAllRenderDevices P this w)) = notifiers w
  /\ next_notifier (snd (SetupForAllRenderDevices P this w)) = next_notifier w.
Proof.
  unfold SetupForAllRenderDevices, render_collection.
  destruct (co_create_instance P) as [hr [e|]]; [|auto].
  destruct (FAILED hr); [intros _; cbn [snd]; heap_untouched|].
  destruct (enum_audio_endpoints P e) as [hr_enum [c|]];
    [destruct (FAILED hr_enum); [|discriminate]|];
    intros _; cbn [snd]; heap_untouched.
Qed.

(** C5, amended.  When the device enumerator cannot be created, or the
    endpoints cannot be enumerated (a failure code or a null pointer from
    either call), Initialize returns having set no session preference,
    created no notifier and added no registration, so a manager that held
    none holds none; whether CoInitializeEx succeeded plays no part. *)
Theorem Initialize_subsystem_unavailable :
  forall P this w,
    snd (co_create_instance P) = None
    \/ FAILED (fst (co_create_instance P)) = true
    \/ (exists e, snd (co_create_instance P) = Some e
                  /\ (snd (enum_audio_endpoints P e) = None
                      \/ FAILED (fst (enum_audio_endpoints P e)) = true)) ->
    registrations_ (fst (Initialize P this w)) = registrations_ this
    /\ registrations_ (fst (Initialize P AudioDuckingManager_new w)) = []
    /\ ducking_calls (events_since w (snd (Initialize P this w))) = []
    /\ opted_out (snd (Initialize P this w)) = opted_out w
    /\ notifiers (snd (Initialize P this w)) = notifiers w
    /\ next_notifier (snd (Initialize P this w)) = next_notifier w.
Proof.
  intros P this w Hun. apply render_collection_None in Hun.
  assert (Hcalls : initial_pass_calls P = []).
  { rewrite initial_pass_calls_eq. unfold activated_managers. rewrite Hun. reflexivity. }
  assert (Hsubs : subscribed_managers P = []).
  { unfold subscribed_managers, activated_managers. rewrite Hun. reflexivity. }
  assert (Hregs : forall t, registrations_ (fst (Initialize P t w)) = registrations_ t).
  { intros t. destruct (Initialize_effect P t w) as (_ & _ & [_ (fresh & Hr & Hm & _)]).
    rewrite Hsubs in Hm. destruct fresh; [|discriminate].
    cbn [fst snd map] in Hr. rewrite app_nil_r in Hr. exact Hr. }
  destruct (Initialize_effect P this w) as (Hp & _ & _).
  rewrite Hcalls in Hp.
  split; [apply Hregs|]. split; [apply Hregs|].
  split; [apply (pass_effect_calls _ _ _ _ Hp)|].
  split.
  { destruct Hp as [_ Ho]. rewrite Ho, granted_nil. set_solver. }
  clear Hp Hregs Hcalls Hsubs. unfold Initialize.
  destruct (com_initialized_ this); cbn [negb];
    [|destruct (SUCCEEDED (co_initialize P));
      [|destruct (co_initialize P =? RPC_E_CHANGED_MODE)%Z]];
    match goal with
    | |- context [SetupForAllRenderDevices P ?t ?w1] =>
        destruct (SetupForAllRenderDevices_unavailable P t w1 Hun) as [Hh Hn];
        rewrite Hh, Hn; auto
    end.
Qed.

Lemma Initialize_subsystem_unavailable_witness :
  registrations_ (fst (Initialize stub_unavailable AudioDuckingManager_new empty_world)) = []
  /\ ducking_calls
       (events_since empty_world
          (snd (Initialize stub_unavailable AudioDuckingManager_new empty_world))) = [].
Proof.
  assert (H : snd (co_create_instance stub_unavailable) = None
              \/ FAILED (fst (co_create_instance stub_unavailable)) = true
              \/ (exists e, snd (co_create_instance stub_unavailable) = Some e
                            /\ (snd (enum_audio_endpoints stub_unavailable e) = None
                                \/ FAILED (fst (enum_audio_endpoints stub_unavailable e)) = true)))
    by (left; reflexivity).
  destruct (Initialize_subsystem_unavailable stub_unavailable AudioDuckingManager_new
              empty_world H) as (_ & Hr & Hc & _).
  exact (conj Hr Hc).
Defined.

(** ** Ownership of the notifier *)

(** C6.  [RegisterForNewSessions] allocates a notifier whose count is one and
    passes it to RegisterSessionNotification.  If that fails, the next call
    is the Release of the notifier, no registration is recorded, and the
    notifier is deleted when the subsystem took no reference of its own
    during the call (otherwise it survives with the subsystem's references).
    If it succeeds, the session manager is AddRef'ed and the pair of that
    manager and that notifier is appended to the registrations; the notifier
    stays alive with the creator's reference and the subsystem's.  With a null
    manager nothing happens. *)
Theorem RegisterForNewSessions_ownership :
  forall P m this w,
    let n := next_notifier w in
    let k := register_addrefs P m in
    let ok := SUCCEEDED (register_notification P m) in
    let this' := fst (RegisterForNewSessions P (Some m) this w) in
    let w' := snd (RegisterForNewSessions P (Some m) this w) in
    ref_count_ SessionNotifier_new = 1%Z
    /\ fst (new_SessionNotifier w) = n
    /\ notifiers (snd (new_SessionNotifier w)) !! n = Some {| ref_count_ := 1 |}
    /\ events_since w w'
       = EvRegisterSessionNotification m n :: repeat (EvAddRef (Notifier n)) k
         ++ [if ok then EvAddRef (SessionManager m) else EvRelease (Notifier n)]
    /\ registrations_ this'
       = registrations_ this
         ++ (if ok then [ {| manager2 := Some m; notifier := Some n |} ] else [])
    /\ notifiers w' !! n
       = (if ok then Some {| ref_count_ := ULONG_wrap (1 + Z.of_nat k) |}
          else if (ULONG_wrap (Z.of_nat k) =? 0)%Z then None
               else Some {| ref_count_ := ULONG_wrap (Z.of_nat k) |})
    /\ (ok = false -> k = 0 -> notifiers w' !! n = None /\ registrations_ this' = registrations_ this)
    /\ RegisterForNewSessions P None this w = (this, w).
Proof.
  intros P m this w n k ok this' w'.
  destruct (RegisterForNewSessions_spec P m this w)
    as (Ht & _ & _ & _ & Hsame & _ & Hregs).
  fold n k ok this' w' in Ht, Hsame, Hregs.
  split; [reflexivity|]. split; [reflexivity|].
  split; [apply lookup_insert_eq|].
  split; [apply events_since_app; exact Ht|].
  split; [exact Hregs|]. split; [exact Hsame|].
  split; [|reflexivity].
  intros Hok Hk. rewrite Hsame, Hregs, Hok, Hk. split; [reflexivity | apply app_nil_r].
Qed.

(** A refused subscription with no reference kept: the notifier is gone and
    nothing is recorded. *)
Lemma RegisterForNewSessions_ownership_witness :
  notifiers (snd (RegisterForNewSessions stub_subscription_refused (Some 20)
                    AudioDuckingManager_new empty_world)) !! 0 = None
  /\ registrations_ (fst (RegisterForNewSessions stub_subscription_refused (Some 20)
                            AudioDuckingManager_new empty_world)) = [].
Proof.
  destruct (RegisterForNewSessions_ownership stub_subscription_refused 20
              AudioDuckingManager_new empty_world) as (_ & _ & _ & _ & _ & _ & H & _).
  exact (H eq_refl eq_refl).
Defined.

Example stub_refused_trace :
  trace (snd (RegisterForNewSessions stub_subscription_refused (Some 20)
                AudioDuckingManager_new empty_world))
  = [EvRegisterSessionNotification 20 0; EvRelease (Notifier 0)].
Proof. vm_compute. reflexivity. Qed.

(** ** Repeated initialization *)

Lemma length_flat_map_repeat {A B} (f : A -> list B) x N :
  length (flat_map f (repeat x N)) = N * length (f x).
Proof.
  induction N as [|N IH]; simpl; [reflexivity|].
  rewrite length_app, IH. reflexivity.
Qed.

(** C7.  After construction and any sequence of Initialize calls, the
    registrations are, in order, one per subscribed endpoint of the first
    call, then one per subscribed endpoint of the second, and so on: nothing
    is merged or skipped for an endpoint registered before.  Each registration
    has a notifier of its own (no handle appears twice) that is alive, and the
    destructor tears each one down by its own three calls.  Each call adds as
    many registrations as it has subscribed endpoints, so [N] calls against the
    same subsystem leave [N] times that many. *)
Theorem Initialize_accumulates :
  (forall Ps w0,
      let st := Initialize_all Ps (AudioDuckingManager_new, w0) in
      exists recorded : list (handle * handle),
        registrations_ (fst st) = map registration_of recorded
        /\ map fst recorded = flat_map subscribed_managers Ps
        /\ NoDup (map snd recorded)
        /\ Forall (fun n : handle => is_Some (notifiers (snd st) !! n)) (map snd recorded)
        /\ forall w,
             events_since w (snd (AudioDuckingManager_destroy (fst st) w))
             = flat_map teardown_calls recorded
               ++ (if com_initialized_ (fst st) then [EvCoUninitialize] else []))
  /\ (forall P this w,
        length (registrations_ (fst (Initialize P this w)))
        = length (registrations_ this) + length (subscribed_managers P))
  /\ (forall P N w0,
        length (registrations_ (fst (Initialize_all (repeat P N)
                                       (AudioDuckingManager_new, w0))))
        = N * length (subscribed_managers P)).
Proof.
  split; [|split].
  - intros Ps w0 st.
    destruct (recorded_registrations Ps w0) as (recorded & Hr & Hm & Hd & Hl).
    exists recorded. repeat split; auto.
    intros w. apply events_since_app. apply destroy_trace. exact Hr.
  - intros P this w.
    destruct (Initialize_effect P this w) as (_ & _ & [_ (fresh & Hr & Hm & _)]).
    cbn [fst snd] in Hr. rewrite Hr, length_app, length_map, <- Hm, length_map.
    reflexivity.
  - intros P N w0.
    destruct (recorded_registrations (repeat P N) w0) as (recorded & Hr & Hm & _).
    rewrite Hr, length_map, <- (length_map fst), Hm. apply length_flat_map_repeat.
Qed.

Example stub_initialize_twice :
  registrations_ (fst (Initialize_all [stub; stub] (AudioDuckingManager_new, empty_world)))
  = [ {| manager2 := Some 20; notifier := Some 0 |};
      {| manager2 := Some 21; notifier := Some 1 |};
      {| manager2 := Some 20; notifier := Some 2 |};
      {| manager2 := Some 21; notifier := Some 3 |} ].
Proof. vm_compute. reflexivity. Qed.

(** * Further properties of the code *)

(** ** The footprint of the session-side code *)

Lemma footprint_refl Q w : footprint Q w w.
Proof. exists []. split; [symmetry; apply app_nil_r | reflexivity]. Qed.

Lemma footprint_trans Q w w1 w2 :
  footprint Q w w1 -> footprint Q w1 w2 -> footprint Q w w2.
Proof.
  intros (e1 & Ht1 & Hq1) (e2 & Ht2 & Hq2). exists (e1 ++ e2). split.
  - rewrite Ht2, Ht1, app_assoc. reflexivity.
  - rewrite forallb_app, Hq1, Hq2. reflexivity.
Qed.

Lemma footprint_fold {I} Q (f : World -> I -> World) :
  (forall w i, footprint Q w (f w i)) ->
  forall l w, footprint Q w (fold_left f l w).
Proof.
  intros Hf l. induction l as [|i l IH]; intros w; simpl.
  - apply footprint_refl.
  - eapply footprint_trans; [apply Hf | apply IH].
Qed.

Lemma footprint_SafeRelease Q p w :
  match p with Some o => Q (EvRelease o) = true | None => True end ->
  footprint Q w (SafeRelease p w).
Proof.
  intros Hq. exists (match p with Some o => [EvRelease o] | None => [] end).
  split; [apply trace_SafeRelease|].
  destruct p; [simpl; rewrite Hq|]; reflexivity.
Qed.

Lemma footprint_SetDuckingPreference Q P s w :
  Q (EvSetDuckingPreference s) = true -> footprint Q w (SetDuckingPreference P s w).
Proof.
  intros Hq. exists [EvSetDuckingPreference s].
  split; [apply trace_SetDuckingPreference | simpl; rewrite Hq; reflexivity].
Qed.

Ltac session_footprint :=
  repeat first
    [ apply footprint_refl
    | apply footprint_SafeRelease; cbn [fmap option_fmap option_map]; exact eq_refl
    | apply footprint_SafeRelease; exact I
    | apply footprint_SetDuckingPreference; exact eq_refl
    | eapply footprint_trans;
      [| apply footprint_SafeRelease; first [exact eq_refl | exact I]] ].

Lemma session_step_footprint P e w i :
  footprint session_level w (session_step P e w i).
Proof.
  unfold session_step. cbn [andb].
  destruct (get_session P e i) as [hr [s|]];
    cbn [fmap option_fmap option_map]; [|session_footprint].
  destruct (SUCCEEDED hr); [|session_footprint].
  destruct (query_control2 P s) as [hr_qi c2].
  destruct (get_process_id P s) as [hr_pid pid].
  destruct (SUCCEEDED hr_qi), c2, (SUCCEEDED hr_pid), (pid =? current_pid P)%Z;
    cbn [andb]; session_footprint.
Qed.

Lemma ApplyOptOutToExistingSessions_footprint P manager2 w :
  footprint session_level w (ApplyOptOutToExistingSessions P manager2 w).
Proof.
  unfold ApplyOptOutToExistingSessions.
  destruct manager2 as [m|]; [|apply footprint_refl].
  destruct (get_session_enumerator P m) as [hr [e|]]; [|apply footprint_refl].
  destruct (FAILED hr); [session_footprint|].
  destruct (session_count P e) as [hr_count count].
  destruct (FAILED hr_count); [session_footprint|].
  eapply footprint_trans; [|apply footprint_SafeRelease; exact eq_refl].
  apply footprint_fold. intros w0 i. apply session_step_footprint.
Qed.

Lemma OnSessionCreated_footprint P new_session w :
  footprint (fun e => match new_session, e with
                      | Some s, EvSetDuckingPreference s' => Nat.eqb s' s
                      | Some s, EvRelease (SessionControl2 s') => Nat.eqb s' s
                      | _, _ => false
                      end)
            w (fst (OnSessionCreated P new_session w)).
Proof.
  unfold OnSessionCreated. destruct new_session as [s|]; [|apply footprint_refl].
  destruct (query_control2 P s) as [hr_qi c2].
  destruct (get_process_id P s) as [hr_pid pid].
  destruct (SUCCEEDED hr_qi), c2, (SUCCEEDED hr_pid), (pid =? current_pid P)%Z;
    cbn [fst];
    repeat first
      [ apply footprint_refl
      | apply footprint_SafeRelease; cbn; apply Nat.eqb_refl
      | apply footprint_SetDuckingPreference; cbn; apply Nat.eqb_refl
      | eapply footprint_trans;
        [| apply footprint_SafeRelease; cbn; apply Nat.eqb_refl] ].
Qed.

(** ** The manager-side calls of Initialize *)

Lemma manager_calls_app t1 t2 :
  manager_calls (t1 ++ t2) = manager_calls t1 ++ manager_calls t2.
Proof. apply flat_map_app. Qed.

Lemma session_level_no_manager_call evs :
  forallb session_level evs = true -> manager_calls evs = [].
Proof.
  induction evs as [|e evs IH]; [reflexivity|].
  cbn [forallb]. rewrite andb_true_iff. intros [He Hr].
  cbn [manager_calls flat_map]. fold (manager_calls evs). rewrite (IH Hr), app_nil_r.
  destruct e as [| | | | |o|o]; try discriminate He; try reflexivity;
    destruct o; try discriminate He; reflexivity.
Qed.

Lemma mc_effect_refl w : mc_effect w w [].
Proof. exists []. split; [symmetry; apply app_nil_r | reflexivity]. Qed.

Lemma mc_effect_trans w w1 w2 l1 l2 :
  mc_effect w w1 l1 -> mc_effect w1 w2 l2 -> mc_effect w w2 (l1 ++ l2).
Proof.
  intros (e1 & Ht1 & Hm1) (e2 & Ht2 & Hm2). exists (e1 ++ e2). split.
  - rewrite Ht2, Ht1, app_assoc. reflexivity.
  - rewrite manager_calls_app, Hm1, Hm2. reflexivity.
Qed.

Lemma mc_effect_calls w w' l :
  mc_effect w w' l -> manager_calls (events_since w w') = l.
Proof. intros (evs & Ht & Hm). rewrite (events_since_app _ _ _ Ht). exact Hm. Qed.

Lemma mc_effect_session_level w w' :
  footprint session_level w w' -> mc_effect w w' [].
Proof.
  intros (evs & Ht & Hq). exists evs. split; [exact Ht|].
  apply session_level_no_manager_call. exact Hq.
Qed.

Lemma mc_effect_SafeRelease p w :
  mc_effect w (SafeRelease p w)
            match p with Some (SessionManager m) => [McRelease m] | _ => [] end.
Proof.
  exists (match p with Some o => [EvRelease o] | None => [] end).
  split; [apply trace_SafeRelease|].
  destruct p as [o|]; [destruct o|]; reflexivity.
Qed.

Lemma manager_calls_repeat_AddRef_notifier n k :
  manager_calls (repeat (EvAddRef (Notifier n)) k) = [].
Proof. induction k as [|k IH]; simpl; auto. Qed.

Lemma mc_effect_RegisterForNewSessions P m this w :
  mc_effect w (snd (RegisterForNewSessions P (Some m) this w))
            (McRegister m :: (if subscribes P m then [McAddRef m] else [])).
Proof.
  destruct (RegisterForNewSessions_spec P m this w) as (Ht & _).
  eexists. split; [exact Ht|].
  cbn [manager_calls flat_map manager_call app]. f_equal.
  fold (manager_calls (repeat (EvAddRef (Notifier (next_notifier w)))
                         (register_addrefs P m)
                       ++ [if SUCCEEDED (register_notification P m)
                           then EvAddRef (SessionManager m)
                           else EvRelease (Notifier (next_notifier w))])).
  rewrite manager_calls_app, manager_calls_repeat_AddRef_notifier.
  unfold subscribes. destruct (SUCCEEDED (register_notification P m)); reflexivity.
Qed.

Lemma device_step_mc P c st i :
  mc_effect (snd st) (snd (device_step P c st i)) (endpoint_calls P c i).
Proof.
  destruct st as [this w].
  unfold device_step, endpoint_calls, stray_manager, endpoint_manager.
  destruct (collection_item P c i) as [hr [d|]]; cbn [non_null fmap option_fmap option_map].
  2:{ rewrite andb_false_r. cbn [fst snd SafeRelease]. apply mc_effect_refl. }
  destruct (SUCCEEDED hr); cbn [andb].
  2:{ cbn [fst snd]. apply (mc_effect_SafeRelease (Some (Device d))). }
  unfold CreateSessionManagerForDevice.
  destruct (activate P d) as [hr_act [m|]]; cbn [fmap option_fmap option_map].
  2:{ destruct (FAILED hr_act); cbn [non_null fst snd SafeRelease];
        apply (mc_effect_SafeRelease (Some (Device d))). }
  destruct (FAILED hr_act); cbn [non_null fst snd map flat_map app].
  { change [McRelease m] with ([McRelease m] ++ []).
    eapply mc_effect_trans.
    - apply (mc_effect_SafeRelease (Some (SessionManager m))).
    - apply (mc_effect_SafeRelease (Some (Device d))). }
  rewrite app_nil_r.
  set (wa := ApplyOptOutToExistingSessions P (Some m) w).
  pose proof (mc_effect_RegisterForNewSessions P m this wa) as Hr.
  destruct (RegisterForNewSessions P (Some m) this wa) as [this1 w1].
  cbn [fst snd] in *.
  change (McRegister m :: (if subscribes P m then [McAddRef m] else []))
    with ([] ++ (McRegister m :: (if subscribes P m then [McAddRef m] else []))).
  eapply mc_effect_trans.
  { apply mc_effect_session_level. apply ApplyOptOutToExistingSessions_footprint. }
  rewrite <- (app_nil_r (McRegister m :: _)).
  eapply mc_effect_trans; [exact Hr|].
  apply (mc_effect_SafeRelease (Some (Device d))).
Qed.

Lemma device_loop_mc P c l : forall st,
  mc_effect (snd st) (snd (fold_left (device_step P c) l st))
            (flat_map (endpoint_calls P c) l).
Proof.
  induction l as [|i l IH]; intros st; simpl.
  - apply mc_effect_refl.
  - eapply mc_effect_trans; [apply device_step_mc | apply IH].
Qed.

Lemma SetupForAllRenderDevices_mc P this w :
  mc_effect w (snd (SetupForAllRenderDevices P this w)) (initialize_calls P true).
Proof.
  unfold SetupForAllRenderDevices, initialize_calls, render_collection.
  cbn [app].
  destruct (co_create_instance P) as [hr [e|]]; [|apply mc_effect_refl].
  destruct (FAILED hr).
  { apply (mc_effect_SafeRelease (Some (DeviceEnumerator e))). }
  destruct (enum_audio_endpoints P e) as [hr_enum [c|]].
  2:{ apply (mc_effect_SafeRelease (Some (DeviceEnumerator e))). }
  destruct (FAILED hr_enum).
  { cbn [snd]. eapply (mc_effect_trans _ _ _ [] []).
    - apply (mc_effect_SafeRelease (Some (DeviceCollection c))).
    - apply (mc_effect_SafeRelease (Some (DeviceEnumerator e))). }
  pose proof (device_loop_mc P c (seq 0 (collection_count P c)) (this, w)) as Hl.
  destruct (fold_left (device_step P c) (seq 0 (collection_count P c)) (this, w))
    as [this1 w1].
  cbn [fst snd] in *.
  rewrite <- (app_nil_r (flat_map _ _)).
  eapply mc_effect_trans; [exact Hl|].
  eapply (mc_effect_trans _ _ _ [] []).
  - apply (mc_effect_SafeRelease (Some (DeviceCollection c))).
  - apply (mc_effect_SafeRelease (Some (DeviceEnumerator e))).
Qed.

Lemma Initialize_mc P this w :
  mc_effect w (snd (Initialize P this w)) (initialize_calls P (com_initialized_ this)).
Proof.
  unfold Initialize.
  assert (Hlog : mc_effect w (log EvCoInitializeEx w) [McCoInitializeEx])
    by (exists [EvCoInitializeEx]; split; reflexivity).
  change (initialize_calls P (com_initialized_ this))
    with ((if com_initialized_ this then [] else [McCoInitializeEx])
          ++ initialize_calls P true).
  destruct (com_initialized_ this); cbn [negb].
  - eapply (mc_effect_trans _ _ _ [] _ (mc_effect_refl w)).
    apply SetupForAllRenderDevices_mc.
  - destruct (SUCCEEDED (co_initialize P));
      [|destruct (co_initialize P =? RPC_E_CHANGED_MODE)%Z];
      (eapply mc_effect_trans; [exact Hlog | apply SetupForAllRenderDevices_mc]).
Qed.

Lemma Initialize_all_mc Ps : forall st,
  mc_effect (snd st) (snd (Initialize_all Ps st))
            (lifetime_calls (com_initialized_ (fst st)) Ps).
Proof.
  induction Ps as [|P Ps IH]; intros st.
  - apply mc_effect_refl.
  - cbn [Initialize_all fold_left lifetime_calls].
    eapply mc_effect_trans; [apply Initialize_mc|].
    specialize (IH (Initialize P (fst st) (snd st))).
    rewrite (proj1 (proj2 (Initialize_effect P (fst st) (snd st)))) in IH.
    exact IH.
Qed.

(** ** Reading the manager-side calls *)

Lemma released_app l1 l2 : released (l1 ++ l2) = released l1 ++ released l2.
Proof. apply flat_map_app. Qed.
Lemma addrefed_app l1 l2 : addrefed (l1 ++ l2) = addrefed l1 ++ addrefed l2.
Proof. apply flat_map_app. Qed.
Lemma registered_app l1 l2 : registered (l1 ++ l2) = registered l1 ++ registered l2.
Proof. apply flat_map_app. Qed.
Lemma unregistered_app l1 l2 : unregistered (l1 ++ l2) = unregistered l1 ++ unregistered l2.
Proof. apply flat_map_app. Qed.
Lemma co_init_calls_app l1 l2 : co_init_calls (l1 ++ l2) = co_init_calls l1 ++ co_init_calls l2.
Proof. apply List.filter_app. Qed.
Lemma co_uninit_calls_app l1 l2 :
  co_uninit_calls (l1 ++ l2) = co_uninit_calls l1 ++ co_uninit_calls l2.
Proof. apply List.filter_app. Qed.

(** The six readings of the calls for one endpoint. *)
Lemma endpoint_calls_read P c i :
  registered (endpoint_calls P c i) = endpoint_manager P c i
  /\ addrefed (endpoint_calls P c i) = List.filter (subscribes P) (endpoint_manager P c i)
  /\ released (endpoint_calls P c i) = stray_manager P c i
  /\ unregistered (endpoint_calls P c i) = []
  /\ co_init_calls (endpoint_calls P c i) = []
  /\ co_uninit_calls (endpoint_calls P c i) = [].
Proof.
  unfold endpoint_calls, stray_manager, endpoint_manager.
  destruct (collection_item P c i) as [hr [d|]]; [|cbn; auto 10].
  destruct (SUCCEEDED hr); [|cbn; auto 10].
  destruct (activate P d) as [hr_act [m|]]; [|cbn; auto 10].
  destruct (FAILED hr_act); [cbn; auto 10|].
  cbn [map app flat_map List.filter]. rewrite app_nil_r.
  destruct (subscribes P m); cbn; auto 10.
Qed.

Lemma endpoint_loop_read P c l :
  registered (flat_map (endpoint_calls P c) l) = flat_map (endpoint_manager P c) l
  /\ addrefed (flat_map (endpoint_calls P c) l)
     = List.filter (subscribes P) (flat_map (endpoint_manager P c) l)
  /\ released (flat_map (endpoint_calls P c) l) = flat_map (stray_manager P c) l
  /\ unregistered (flat_map (endpoint_calls P c) l) = []
  /\ co_init_calls (flat_map (endpoint_calls P c) l) = []
  /\ co_uninit_calls (flat_map (endpoint_calls P c) l) = [].
Proof.
  induction l as [|i l IH]; [cbn; auto 10|].
  destruct IH as (I1 & I2 & I3 & I4 & I5 & I6).
  destruct (endpoint_calls_read P c i) as (E1 & E2 & E3 & E4 & E5 & E6).
  cbn [flat_map].
  rewrite registered_app, addrefed_app, released_app, unregistered_app,
    co_init_calls_app, co_uninit_calls_app, List.filter_app.
  rewrite I1, I2, I3, I4, I5, I6, E1, E2, E3, E4, E5, E6. auto 10.
Qed.

Lemma initialize_calls_read P com :
  registered (initialize_calls P com) = activated_managers P
  /\ addrefed (initialize_calls P com) = subscribed_managers P
  /\ released (initialize_calls P com) = stray_managers P
  /\ unregistered (initialize_calls P com) = []
  /\ co_init_calls (initialize_calls P com) = (if com then [] else [McCoInitializeEx])
  /\ co_uninit_calls (initialize_calls P com) = [].
Proof.
  unfold initialize_calls, subscribed_managers, activated_managers, stray_managers.
  rewrite registered_app, addrefed_app, released_app, unregistered_app,
    co_init_calls_app, co_uninit_calls_app.
  destruct (render_collection P) as [c|].
  - destruct (endpoint_loop_read P c (seq 0 (collection_count P c)))
      as (I1 & I2 & I3 & I4 & I5 & I6).
    rewrite I1, I2, I3, I4, I5, I6. destruct com; repeat split; reflexivity.
  - destruct com; repeat split; reflexivity.
Qed.

(** X1.  The manager-side calls of one [Initialize]: it subscribes once to
    every session manager it activates, in endpoint order; it calls AddRef
    once on each of those whose subscription succeeds; it calls Release only on
    a manager pointer that Activate left behind together with a failure code;
    it never unsubscribes and never calls CoUninitialize; and it calls
    CoInitializeEx once exactly when [com_initialized_] is not yet set. *)
Theorem Initialize_manager_references :
  forall P this w,
    let calls := manager_calls (events_since w (snd (Initialize P this w))) in
    registered calls = activated_managers P
    /\ addrefed calls = subscribed_managers P
    /\ released calls = stray_managers P
    /\ unregistered calls = []
    /\ co_init_calls calls = (if com_initialized_ this then [] else [McCoInitializeEx])
    /\ co_uninit_calls calls = [].
Proof.
  intros P this w calls. subst calls.
  rewrite (mc_effect_calls _ _ _ (Initialize_mc P this w)).
  apply initialize_calls_read.
Qed.

Lemma lifetime_calls_read Ps : forall com,
  addrefed (lifetime_calls com Ps) = flat_map subscribed_managers Ps
  /\ released (lifetime_calls com Ps) = flat_map stray_managers Ps
  /\ registered (lifetime_calls com Ps) = flat_map activated_managers Ps
  /\ unregistered (lifetime_calls com Ps) = []
  /\ co_uninit_calls (lifetime_calls com Ps) = []
  /\ length (co_init_calls (lifetime_calls com Ps))
     = (if com then 0 else length (co_init_attempts Ps)).
Proof.
  induction Ps as [|P Ps IH]; intros com.
  - cbn. destruct com; auto 10.
  - cbn [lifetime_calls flat_map co_init_attempts].
    destruct (IH (com || SUCCEEDED (co_initialize P))) as (I1 & I2 & I3 & I4 & I5 & I6).
    destruct (initialize_calls_read P com) as (E1 & E2 & E3 & E4 & E5 & E6).
    rewrite addrefed_app, released_app, registered_app, unregistered_app,
      co_uninit_calls_app, co_init_calls_app, length_app.
    rewrite I1, I2, I3, I4, I5, I6, E1, E2, E3, E4, E5, E6.
    repeat (split; [reflexivity|]).
    destruct com; cbn [orb length]; [reflexivity|].
    destruct (SUCCEEDED (co_initialize P)); cbn [length]; lia.
Qed.

Lemma co_init_attempts_successes Ps :
  length (List.filter SUCCEEDED (co_init_attempts Ps))
  = if existsb (fun P => SUCCEEDED (co_initialize P)) Ps then 1 else 0.
Proof.
  induction Ps as [|P Ps IH]; [reflexivity|].
  cbn [co_init_attempts existsb List.filter].
  destruct (SUCCEEDED (co_initialize P)) eqn:E; cbn [orb List.filter length].
  - reflexivity.
  - exact IH.
Qed.

Lemma destroy_mc this w recorded :
  registrations_ this = map registration_of recorded ->
  manager_calls (events_since w (snd (AudioDuckingManager_destroy this w)))
  = flat_map (fun mn => [McUnregister (fst mn); McRelease (fst mn)]) recorded
    ++ (if com_initialized_ this then [McCoUninitialize] else []).
Proof.
  intros Hr. rewrite (events_since_app _ _ _ (destroy_trace this w recorded Hr)).
  rewrite manager_calls_app. f_equal.
  - clear Hr. induction recorded as [|mn l IH]; [reflexivity|].
    cbn [flat_map]. rewrite manager_calls_app, IH. reflexivity.
  - destruct (com_initialized_ this); reflexivity.
Qed.

Lemma teardown_read recorded :
  let l := flat_map (fun mn : handle * handle =>
                       [McUnregister (fst mn); McRelease (fst mn)]) recorded in
  released l = map fst recorded /\ unregistered l = map fst recorded
  /\ registered l = [] /\ addrefed l = []
  /\ co_init_calls l = [] /\ co_uninit_calls l = [].
Proof.
  induction recorded as [|mn r IH]; [cbn; auto 10|].
  cbn zeta in *. destruct IH as (I1 & I2 & I3 & I4 & I5 & I6).
  change (flat_map (fun mn0 : handle * handle =>
                      [McUnregister (fst mn0); McRelease (fst mn0)]) (mn :: r))
    with ([McUnregister (fst mn); McRelease (fst mn)]
          ++ flat_map (fun mn0 : handle * handle =>
                         [McUnregister (fst mn0); McRelease (fst mn0)]) r).
  rewrite released_app, unregistered_app, registered_app, addrefed_app,
    co_init_calls_app, co_uninit_calls_app, I1, I2, I3, I4, I5, I6.
  repeat split; reflexivity.
Qed.

(** X2.  Over the life of one manager (construction, any calls of
    Initialize, destruction): the destructor calls Release on the session
    managers exactly once per AddRef that Initialize made, in the same order,
    and unsubscribes exactly once per successful subscription; during the
    Initialize calls the only Release calls on session managers are on the
    pointers Activate left with a failure code.  The destructor subscribes to
    nothing and retains nothing. *)
Theorem lifetime_manager_references :
  forall Ps w0 w,
    let st := Initialize_all Ps (AudioDuckingManager_new, w0) in
    let up := manager_calls (events_since w0 (snd st)) in
    let down := manager_calls
                  (events_since w (snd (AudioDuckingManager_destroy (fst st) w))) in
    addrefed up = flat_map subscribed_managers Ps
    /\ registered up = flat_map activated_managers Ps
    /\ released up = flat_map stray_managers Ps
    /\ unregistered up = []
    /\ released down = addrefed up
    /\ unregistered down = addrefed up
    /\ registered down = []
    /\ addrefed down = [].
Proof.
  intros Ps w0 w st up down. subst up down.
  pose proof (mc_effect_calls _ _ _ (Initialize_all_mc Ps (AudioDuckingManager_new, w0)))
    as Hup.
  cbn [fst snd] in Hup. fold st in Hup. rewrite Hup.
  destruct (lifetime_calls_read Ps (com_initialized_ AudioDuckingManager_new))
    as (L1 & L2 & L3 & L4 & _).
  destruct (recorded_registrations Ps w0) as (recorded & Hr & Hm & _).
  fold st in Hr. rewrite (destroy_mc (fst st) w recorded Hr).
  destruct (teardown_read recorded) as (T1 & T2 & T3 & T4 & _).
  rewrite released_app, unregistered_app, registered_app, addrefed_app.
  rewrite T1, T2, T3, T4, L1, L2, L3, L4, Hm.
  destruct (com_initialized_ (fst st)); cbn; rewrite ?app_nil_r; auto 10.
Qed.

(** X3.  CoInitializeEx is called by each Initialize until one call succeeds
    and by none after that; the destructor calls CoUninitialize exactly as many
    times as CoInitializeEx succeeded for this instance, which is at most
    once.  Initialize never calls CoUninitialize and the destructor never
    calls CoInitializeEx. *)
Theorem CoInitializeEx_balance :
  forall Ps w0 w,
    let st := Initialize_all Ps (AudioDuckingManager_new, w0) in
    let up := manager_calls (events_since w0 (snd st)) in
    let down := manager_calls
                  (events_since w (snd (AudioDuckingManager_destroy (fst st) w))) in
    length (co_init_calls up) = length (co_init_attempts Ps)
    /\ length (co_uninit_calls down)
       = length (List.filter SUCCEEDED (co_init_attempts Ps))
    /\ length (co_uninit_calls down) <= 1
    /\ co_uninit_calls up = []
    /\ co_init_calls down = [].
Proof.
  intros Ps w0 w st up down. subst up down.
  pose proof (mc_effect_calls _ _ _ (Initialize_all_mc Ps (AudioDuckingManager_new, w0)))
    as Hup.
  cbn [fst snd] in Hup. fold st in Hup. rewrite Hup.
  destruct (lifetime_calls_read Ps (com_initialized_ AudioDuckingManager_new))
    as (_ & _ & _ & _ & L5 & L6).
  destruct (recorded_registrations Ps w0) as (recorded & Hr & _).
  fold st in Hr. rewrite (destroy_mc (fst st) w recorded Hr).
  destruct (teardown_read recorded) as (_ & _ & _ & _ & T5 & T6).
  rewrite co_init_calls_app, co_uninit_calls_app, T5, T6, L5, L6.
  rewrite co_init_attempts_successes.
  unfold st. rewrite (proj2 (Initialize_all_effect Ps (AudioDuckingManager_new, w0))).
  cbn [fst com_initialized_ AudioDuckingManager_new orb app].
  destruct (existsb (fun P => SUCCEEDED (co_initialize P)) Ps); cbn; auto.
Qed.

Example stub_com_retry :
  co_init_attempts [stub_com_failed; stub_com_failed; stub; stub]
  = [(-2147024882)%Z; (-2147024882)%Z; S_OK].
Proof. reflexivity. Qed.

(** ** The notifiers a pass allocates *)

Lemma fresh_registrations_app P a : forall n b,
  fresh_registrations P n (a ++ b)
  = fresh_registrations P n a ++ fresh_registrations P (n + length a) b.
Proof.
  induction a as [|m a IH]; intros n b; cbn [fresh_registrations app length].
  - rewrite Nat.add_0_r. reflexivity.
  - rewrite IH, <- app_assoc. do 3 f_equal. lia.
Qed.

Lemma alloc_effect_silent P this this' w w' :
  registrations_ this' = registrations_ this ->
  next_notifier w' = next_notifier w ->
  notifiers w' = notifiers w ->
  alloc_effect P (this, w) (this', w') [].
Proof.
  intros Hr Hn Hh. unfold alloc_effect. cbn [fst snd length fresh_registrations].
  rewrite Hr, Hn, Hh, app_nil_r, Nat.add_0_r.
  repeat split; auto. intros j m Hj. discriminate Hj.
Qed.

Lemma alloc_effect_trans P st st1 st2 a1 a2 :
  alloc_effect P st st1 a1 -> alloc_effect P st1 st2 a2 ->
  alloc_effect P st st2 (a1 ++ a2).
Proof.
  intros (Hn1 & Hr1 & Hf1 & Ha1) (Hn2 & Hr2 & Hf2 & Ha2).
  unfold alloc_effect. split; [|split; [|split]].
  - rewrite Hn2, Hn1, length_app. lia.
  - rewrite Hr2, Hr1, Hn1, fresh_registrations_app, <- app_assoc. reflexivity.
  - intros n Hlt. rewrite Hf2 by lia. apply Hf1. exact Hlt.
  - intros j m Hj. apply lookup_app_Some in Hj. destruct Hj as [Hj|[Hge Hj]].
    + pose proof (lookup_lt_Some _ _ _ Hj) as Hlt.
      rewrite Hf2 by lia. apply Ha1. exact Hj.
    + specialize (Ha2 _ _ Hj). rewrite Hn1 in Ha2.
      replace (next_notifier (snd st) + j)
        with (next_notifier (snd st) + length a1 + (j - length a1)) by lia.
      exact Ha2.
Qed.

Lemma alloc_effect_fold {I} P
    (f : AudioDuckingManager * World -> I -> AudioDuckingManager * World)
    (E : I -> list handle) :
  (forall st i, alloc_effect P st (f st i) (E i)) ->
  forall l st, alloc_effect P st (fold_left f l st) (flat_map E l).
Proof.
  intros Hf l. induction l as [|i l IH]; intros st; simpl.
  - destruct st as [this w]. apply alloc_effect_silent; reflexivity.
  - eapply alloc_effect_trans; [apply Hf | apply IH].
Qed.

Lemma alloc_effect_RegisterForNewSessions P m this w :
  alloc_effect P (this, w) (RegisterForNewSessions P (Some m) this w) [m].
Proof.
  destruct (RegisterForNewSessions_spec P m this w)
    as (_ & _ & Hn & Hother & Hsame & _ & Hregs).
  unfold alloc_effect. cbn [fst snd length fresh_registrations].
  split; [rewrite Hn; lia|]. split; [|split].
  - rewrite Hregs, app_nil_r. unfold subscribes, registration_of.
    destruct (SUCCEEDED (register_notification P m)); reflexivity.
  - intros n Hlt. apply Hother. lia.
  - intros [|j] m' Hj; [|discriminate Hj]. inversion Hj; subst m'.
    rewrite Nat.add_0_r. etransitivity; [exact Hsame|].
    unfold notifier_after_register, kept_by_subsystem, subscribes. reflexivity.
Qed.

Lemma alloc_effect_SafeRelease_platform P this p w :
  (forall n, p <> Some (Notifier n)) ->
  alloc_effect P (this, w) (this, SafeRelease p w) [].
Proof.
  intros Hp. apply alloc_effect_silent.
  - reflexivity.
  - apply next_notifier_SafeRelease.
  - apply notifiers_SafeRelease_platform. exact Hp.
Qed.

Lemma device_step_alloc P c st i :
  alloc_effect P st (device_step P c st i) (endpoint_manager P c i).
Proof.
  destruct st as [this w]. unfold device_step, endpoint_manager.
  destruct (collection_item P c i) as [hr [d|]]; cbn [non_null fmap option_fmap option_map].
  2:{ rewrite andb_false_r. cbn [SafeRelease]. apply alloc_effect_silent; reflexivity. }
  destruct (SUCCEEDED hr); cbn [andb].
  2:{ apply alloc_effect_SafeRelease_platform. intros n; discriminate. }
  unfold CreateSessionManagerForDevice.
  destruct (activate P d) as [hr_act [m|]]; cbn [fmap option_fmap option_map].
  2:{ destruct (FAILED hr_act); cbn [non_null SafeRelease];
        apply alloc_effect_SafeRelease_platform; intros n; discriminate. }
  destruct (FAILED hr_act); cbn [non_null].
  { apply (alloc_effect_trans P _ (this, SafeRelease (Some (SessionManager m)) w) _ [] []);
      apply alloc_effect_SafeRelease_platform; intros n; discriminate. }
  destruct (ApplyOptOutToExistingSessions_effect P m w) as (_ & Hha & Hna).
  set (wa := ApplyOptOutToExistingSessions P (Some m) w) in *.
  pose proof (alloc_effect_RegisterForNewSessions P m this wa) as Hr.
  destruct (RegisterForNewSessions P (Some m) this wa) as [this1 w1].
  apply (alloc_effect_trans P _ (this, wa) _ [] [m]).
  { apply alloc_effect_silent; auto. }
  apply (alloc_effect_trans P _ (this1, w1) _ [m] []); [exact Hr|].
  apply alloc_effect_SafeRelease_platform. intros n; discriminate.
Qed.

Lemma SetupForAllRenderDevices_alloc P this w :
  alloc_effect P (this, w) (SetupForAllRenderDevices P this w) (activated_managers P).
Proof.
  unfold SetupForAllRenderDevices, activated_managers, render_collection.
  destruct (co_create_instance P) as [hr [e|]].
  2:{ apply alloc_effect_silent; reflexivity. }
  destruct (FAILED hr).
  { apply alloc_effect_SafeRelease_platform. intros n; discriminate. }
  destruct (enum_audio_endpoints P e) as [hr_enum [c|]].
  2:{ apply alloc_effect_SafeRelease_platform. intros n; discriminate. }
  destruct (FAILED hr_enum).
  { apply (alloc_effect_trans P _ (this, SafeRelease (Some (DeviceCollection c)) w) _ [] []);
      apply alloc_effect_SafeRelease_platform; intros n; discriminate. }
  pose proof (alloc_effect_fold P (device_step P c) (endpoint_manager P c)
                (device_step_alloc P c) (seq 0 (collection_count P c)) (this, w)) as Hl.
  destruct (fold_left (device_step P c) (seq 0 (collection_count P c)) (this, w))
    as [this1 w1].
  rewrite <- (app_nil_r (flat_map _ _)).
  eapply alloc_effect_trans; [exact Hl|].
  apply (alloc_effect_trans P _ (this1, SafeRelease (Some (DeviceCollection c)) w1) _ [] []);
    apply alloc_effect_SafeRelease_platform; intros n; discriminate.
Qed.

Lemma Initialize_alloc P this w :
  alloc_effect P (this, w) (Initialize P this w) (activated_managers P).
Proof.
  unfold Initialize.
  set (st1 := if negb (com_initialized_ this) then _ else _).
  assert (H1 : alloc_effect P (this, w) st1 []).
  { unfold st1. destruct (com_initialized_ this); cbn [negb];
      [|destruct (SUCCEEDED (co_initialize P));
        [|destruct (co_initialize P =? RPC_E_CHANGED_MODE)%Z]];
      apply alloc_effect_silent; reflexivity. }
  destruct st1 as [this1 w1].
  exact (alloc_effect_trans P _ _ _ [] _ H1 (SetupForAllRenderDevices_alloc P this1 w1)).
Qed.

(** X4.  One [Initialize] allocates one notifier for every session manager it
    activates, at consecutive handles in endpoint order, whether or not the
    subscription then succeeds.  Afterwards the notifier of a subscribed
    manager holds the creator's reference plus those the subsystem took during
    the subscription; the notifier of a refused subscription holds the
    subsystem's references only and is deleted when there are none.  The
    registrations appended are those of the subscribed managers with these
    handles, and no notifier that existed before is touched. *)
Theorem Initialize_notifiers :
  forall P this w,
    let this' := fst (Initialize P this w) in
    let w' := snd (Initialize P this w) in
    next_notifier w' = next_notifier w + length (activated_managers P)
    /\ registrations_ this'
       = registrations_ this
         ++ fresh_registrations P (next_notifier w) (activated_managers P)
    /\ (forall n : handle, n < next_notifier w -> notifiers w' !! n = notifiers w !! n)
    /\ (forall (j : nat) (m : handle),
          activated_managers P !! j = Some m ->
          notifiers w' !! (next_notifier w + j)
          = if SUCCEEDED (register_notification P m)
            then Some {| ref_count_ := ULONG_wrap (1 + Z.of_nat (register_addrefs P m)) |}
            else if (ULONG_wrap (Z.of_nat (register_addrefs P m)) =? 0)%Z then None
                 else Some {| ref_count_ := ULONG_wrap (Z.of_nat (register_addrefs P m)) |}).
Proof.
  intros P this w this' w'. exact (Initialize_alloc P this w).
Qed.

(** In the stub both endpoints activate: the second one's notifier is at
    handle 1 and holds two references. *)
Lemma Initialize_notifiers_witness :
  notifiers (snd (Initialize stub AudioDuckingManager_new empty_world)) !! 1
  = Some {| ref_count_ := 2 |}.
Proof.
  destruct (Initialize_notifiers stub AudioDuckingManager_new empty_world)
    as (_ & _ & _ & H).
  exact (H 1 21 eq_refl).
Defined.

(** ** Ducking preferences over time *)

Lemma pass_effect_release_registration P w r :
  pass_effect P w (release_registration w r) [].
Proof.
  unfold release_registration.
  eapply pass_effect_nil_trans; [|apply pass_effect_SafeRelease].
  eapply pass_effect_nil_trans; [|apply pass_effect_SafeRelease].
  destruct (manager2 r), (notifier r); try apply pass_effect_refl.
  apply pass_effect_log. reflexivity.
Qed.

Lemma pass_effect_destroy P this w :
  pass_effect P w (snd (AudioDuckingManager_destroy this w)) [].
Proof.
  unfold AudioDuckingManager_destroy.
  assert (Hfold : forall l w0, pass_effect P w0 (fold_left release_registration l w0) []).
  { intros l. induction l as [|r l IH]; intros w0; cbn [fold_left].
    - apply pass_effect_refl.
    - eapply pass_effect_nil_trans; [apply pass_effect_release_registration | apply IH]. }
  destruct (com_initialized_ this); cbn [snd].
  - eapply pass_effect_nil_trans; [apply Hfold | apply pass_effect_log; reflexivity].
  - apply Hfold.
Qed.

(** X6.  The code only ever turns the ducking opt-out on.  Initialize and the
    callback never remove a session from the opted-out set; the destructor
    makes no SetDuckingPreference call and leaves every preference as it is,
    so the opt-out outlives the manager; and repeating Initialize against the
    same subsystem, or the callback for the same session, changes no
    preference the first run had not already set. *)
Theorem preferences_only_grow :
  (forall P this w, opted_out w ⊆ opted_out (snd (Initialize P this w)))
  /\ (forall P new_session w, opted_out w ⊆ opted_out (fst (OnSessionCreated P new_session w)))
  /\ (forall this w,
        opted_out (snd (AudioDuckingManager_destroy this w)) = opted_out w
        /\ ducking_calls (events_since w (snd (AudioDuckingManager_destroy this w))) = [])
  /\ (forall P this w,
        opted_out (snd (Initialize_all [P; P] (this, w)))
        = opted_out (snd (Initialize P this w)))
  /\ (forall P new_session w,
        opted_out (fst (OnSessionCreated P new_session
                          (fst (OnSessionCreated P new_session w))))
        = opted_out (fst (OnSessionCreated P new_session w))).
Proof.
  assert (Hcb : forall P new_session w,
             opted_out (fst (OnSessionCreated P new_session w))
             = opted_out w
               ∪ granted P match new_session with
                           | Some s => if owned_by_current P s then [s] else []
                           | None => []
                           end).
  { intros P [s|] w.
    - exact (proj2 (proj1 (OnSessionCreated_effect P s w))).
    - rewrite OnSessionCreated_null. cbn [fst]. rewrite granted_nil. set_solver. }
  split; [|split; [|split; [|split]]].
  - intros P this w. destruct (Initialize_effect P this w) as ([_ Ho] & _).
    rewrite Ho. set_solver.
  - intros P ns w. rewrite Hcb. set_solver.
  - intros this w. pose proof (pass_effect_destroy stub this w) as Hp. split.
    + destruct Hp as [_ Ho]. rewrite Ho, granted_nil. set_solver.
    + apply (pass_effect_calls _ _ _ _ Hp).
  - intros P this w. cbn [Initialize_all fold_left fst snd].
    destruct (Initialize_effect P this w) as ([_ Ho1] & _).
    destruct (Initialize_effect P (fst (Initialize P this w)) (snd (Initialize P this w)))
      as ([_ Ho2] & _).
    rewrite Ho2, Ho1. set_solver.
  - intros P ns w. rewrite !Hcb. set_solver.
Qed.

(** ** Taking and giving back one reference *)

(** X7.  On a live notifier (count between 1 and 2^32 - 1) a reference taken
    by AddRef, or by a successful QueryInterface, and given back by Release
    leaves the notifier alive with the count it had; Release returns that
    count. *)
Theorem AddRef_then_Release :
  forall o,
    (0 < ref_count_ o < 2 ^ 32)%Z ->
    Release (fst (AddRef o)) = (Some o, ref_count_ o)
    /\ forall (iu ia : GUID) this riid,
         riid = iu \/ riid = ia ->
         Release (qr_object (QueryInterface iu ia this riid true o))
         = (Some o, ref_count_ o).
Proof.
  intros [c] Hc. cbn [ref_count_] in Hc.
  assert (H : Release (fst (AddRef {| ref_count_ := c |}))
              = (Some {| ref_count_ := c |}, c)).
  { unfold Release, AddRef. cbn [fst ref_count_].
    rewrite ULONG_wrap_pred.
    replace (c + 1 - 1)%Z with c by lia.
    rewrite (ULONG_wrap_small c) by lia.
    destruct (Z.eqb_spec c 0); [lia|reflexivity]. }
  split; [exact H|].
  intros iu ia this riid Hr. unfold QueryInterface. cbn [negb].
  assert (E : (riid =? iu)%N || (riid =? ia)%N = true).
  { apply orb_true_iff. destruct Hr as [->| ->]; [left|right]; apply N.eqb_refl. }
  rewrite E. cbn [qr_object ref_count_]. exact H.
Qed.

Lemma AddRef_then_Release_witness :
  Release (fst (AddRef SessionNotifier_new)) = (Some SessionNotifier_new, 1%Z).
Proof.
  exact (proj1 (AddRef_then_Release SessionNotifier_new ltac:(cbn; lia))).
Defined.

(** ** The recorded calls of the session-side code *)

(** X8.  Of the calls the trace records (SetDuckingPreference, AddRef,
    Release, the subscription calls and the COM initialization calls; the
    queries GetSessionEnumerator, GetCount, GetSession, QueryInterface and
    GetProcessId are answered by the [Platform] and are not recorded), the
    synchronous pass over a session manager makes only SetDuckingPreference
    and Release on session interfaces and on the session enumerator: it calls
    no AddRef, no subscription call, no Release on the manager it was given,
    and leaves the notifiers as they are.  The callback makes, of these calls,
    only SetDuckingPreference on the session it was given and Release on that
    session's control2 interface; it does not release [new_session] itself and
    allocates nothing. *)
Theorem session_side_footprint :
  (forall P manager2 w,
      let w' := ApplyOptOutToExistingSessions P manager2 w in
      forallb session_level (events_since w w') = true
      /\ manager_calls (events_since w w') = []
      /\ (forall m, manager2 = Some m ->
                    notifiers w' = notifiers w /\ next_notifier w' = next_notifier w))
  /\ (forall P new_session w,
        let w' := fst (OnSessionCreated P new_session w) in
        forallb (fun e => match new_session, e with
                          | Some s, EvSetDuckingPreference s' => Nat.eqb s' s
                          | Some s, EvRelease (SessionControl2 s') => Nat.eqb s' s
                          | _, _ => false
                          end) (events_since w w') = true
        /\ notifiers w' = notifiers w /\ next_notifier w' = next_notifier w).
Proof.
  split.
  - intros P mgr w w'. subst w'.
    destruct (ApplyOptOutToExistingSessions_footprint P mgr w) as (evs & Ht & Hq).
    rewrite (events_since_app _ _ _ Ht).
    split; [exact Hq|]. split; [apply session_level_no_manager_call; exact Hq|].
    intros m ->. destruct (ApplyOptOutToExistingSessions_effect P m w) as (_ & Hh & Hn).
    auto.
  - intros P ns w w'. subst w'.
    destruct (OnSessionCreated_footprint P ns w) as (evs & Ht & Hq).
    rewrite (events_since_app _ _ _ Ht). split; [exact Hq|].
    destruct ns as [s|].
    + destruct (OnSessionCreated_effect P s w) as (_ & Hh & Hn). auto.
    + rewrite OnSessionCreated_null. auto.
Qed.

Lemma session_side_footprint_witness :
  notifiers (ApplyOptOutToExistingSessions stub (Some 20) empty_world)
  = notifiers empty_world.
Proof.
  destruct session_side_footprint as [H _].
  destruct (H stub (Some 20) empty_world) as (_ & _ & Hm).
  exact (proj1 (Hm 20 eq_refl)).
Defined.

(** ** Reading the trace through a selector *)

Section Projection.
Context {X : Type} (sel : Event -> list X).

Lemma proj_effect_refl w : proj_effect sel w w [].
Proof. exists []. split; [symmetry; apply app_nil_r | reflexivity]. Qed.

Lemma proj_effect_trans w w1 w2 l1 l2 :
  proj_effect sel w w1 l1 -> proj_effect sel w1 w2 l2 ->
  proj_effect sel w w2 (l1 ++ l2).
Proof.
  intros (e1 & Ht1 & Hm1) (e2 & Ht2 & Hm2). exists (e1 ++ e2). split.
  - rewrite Ht2, Ht1, app_assoc. reflexivity.
  - rewrite flat_map_app, Hm1, Hm2. reflexivity.
Qed.

Lemma proj_effect_nil_trans w w1 w2 :
  proj_effect sel w w1 [] -> proj_effect sel w1 w2 [] -> proj_effect sel w w2 [].
Proof. intros H1 H2. exact (proj_effect_trans w w1 w2 [] [] H1 H2). Qed.

Lemma proj_effect_calls w w' l :
  proj_effect sel w w' l -> flat_map sel (events_since w w') = l.
Proof. intros (evs & Ht & Hm). rewrite (events_since_app _ _ _ Ht). exact Hm. Qed.

Lemma proj_effect_SafeRelease p w :
  proj_effect sel w (SafeRelease p w)
              match p with Some o => sel (EvRelease o) | None => [] end.
Proof.
  exists (match p with Some o => [EvRelease o] | None => [] end).
  split; [apply trace_SafeRelease|].
  destruct p; cbn [flat_map]; [apply app_nil_r | reflexivity].
Qed.

Lemma proj_effect_log e w : proj_effect sel w (log e w) (sel e).
Proof. exists [e]. split; [reflexivity | cbn [flat_map]; apply app_nil_r]. Qed.

(** Selectors that ignore the Release calls on session-side objects. *)
Hypothesis sel_session_release :
  forall h, sel (EvRelease (SessionControl h)) = []
            /\ sel (EvRelease (SessionControl2 h)) = []
            /\ sel (EvRelease (SessionEnumerator h)) = [].

Lemma session_level_read evs :
  forallb session_level evs = true ->
  flat_map sel evs
  = flat_map (fun s => sel (EvSetDuckingPreference s)) (ducking_calls evs).
Proof.
  induction evs as [|e evs IH]; [reflexivity|].
  cbn [forallb]. rewrite andb_true_iff. intros [He Hr].
  change (e :: evs) with ([e] ++ evs) at 2.
  rewrite ducking_calls_app, flat_map_app, <- (IH Hr).
  cbn [flat_map]. f_equal.
  destruct e as [| |s| | |o|o]; try discriminate He.
  - cbn. symmetry. apply app_nil_r.
  - destruct o; try discriminate He; cbn; apply sel_session_release.
Qed.

Lemma proj_effect_ApplyOptOut P m w :
  proj_effect sel w (ApplyOptOutToExistingSessions P (Some m) w)
              (flat_map (fun s => sel (EvSetDuckingPreference s)) (own_sessions P m)).
Proof.
  destruct (ApplyOptOutToExistingSessions_effect P m w) as ([(e1 & Ht1 & Hc) _] & _).
  destruct (ApplyOptOutToExistingSessions_footprint P (Some m) w) as (e2 & Ht2 & Hq).
  assert (e1 = e2) by (rewrite Ht1 in Ht2; exact (app_inv_head _ _ _ Ht2)). subst e2.
  exists e1. split; [exact Ht1|]. rewrite (session_level_read e1 Hq), Hc. reflexivity.
Qed.

(** ... and the AddRef and Release calls on notifiers. *)
Hypothesis sel_notifier :
  forall n, sel (EvAddRef (Notifier n)) = [] /\ sel (EvRelease (Notifier n)) = [].

Lemma proj_effect_RegisterForNewSessions P m this w :
  proj_effect sel w (snd (RegisterForNewSessions P (Some m) this w))
              (sel (EvRegisterSessionNotification m (next_notifier w))
               ++ (if subscribes P m then sel (EvAddRef (SessionManager m)) else [])).
Proof.
  destruct (RegisterForNewSessions_spec P m this w) as (Ht & _).
  eexists. split; [exact Ht|].
  cbn [flat_map]. f_equal. rewrite flat_map_app.
  assert (Hrep : forall k, flat_map sel (repeat (EvAddRef (Notifier (next_notifier w))) k) = []).
  { intros k. induction k as [|k IH]; [reflexivity|].
    cbn [repeat flat_map]. rewrite IH, (proj1 (sel_notifier _)). reflexivity. }
  rewrite Hrep. unfold subscribes.
  destruct (SUCCEEDED (register_notification P m)); cbn [flat_map app].
  - apply app_nil_r.
  - rewrite (proj2 (sel_notifier _)). reflexivity.
Qed.
End Projection.

(** ** Initialize through any selector that is blind to notifiers *)

Section InitializeReading.
Context {X : Type} (sel : Event -> list X).
Hypothesis sel_session_release :
  forall h, sel (EvRelease (SessionControl h)) = []
            /\ sel (EvRelease (SessionControl2 h)) = []
            /\ sel (EvRelease (SessionEnumerator h)) = [].
Hypothesis sel_notifier :
  forall n, sel (EvAddRef (Notifier n)) = [] /\ sel (EvRelease (Notifier n)) = [].
Hypothesis sel_register :
  forall m n, sel (EvRegisterSessionNotification m n)
              = sel (EvRegisterSessionNotification m 0).

Lemma device_step_reading P c st i :
  proj_effect sel (snd st) (snd (device_step P c st i)) (endpoint_reading sel P c i).
Proof.
  destruct st as [this w]. unfold device_step, endpoint_reading.
  destruct (collection_item P c i) as [hr [d|]]; cbn [non_null fmap option_fmap option_map].
  2:{ rewrite andb_false_r. cbn [fst snd SafeRelease app]. apply proj_effect_refl. }
  destruct (SUCCEEDED hr); cbn [andb].
  2:{ cbn [fst snd app]. apply (proj_effect_SafeRelease sel (Some (Device d))). }
  unfold CreateSessionManagerForDevice.
  destruct (activate P d) as [hr_act [m|]]; cbn [fmap option_fmap option_map].
  2:{ destruct (FAILED hr_act); cbn [non_null fst snd SafeRelease app];
        apply (proj_effect_SafeRelease sel (Some (Device d))). }
  destruct (FAILED hr_act); cbn [non_null fst snd].
  { eapply proj_effect_trans.
    - apply (proj_effect_SafeRelease sel (Some (SessionManager m))).
    - apply (proj_effect_SafeRelease sel (Some (Device d))). }
  set (wa := ApplyOptOutToExistingSessions P (Some m) w).
  pose proof (proj_effect_RegisterForNewSessions sel sel_notifier P m this wa) as Hr.
  rewrite sel_register in Hr.
  destruct (RegisterForNewSessions P (Some m) this wa) as [this1 w1].
  cbn [fst snd] in *.
  eapply proj_effect_trans; [|apply (proj_effect_SafeRelease sel (Some (Device d)))].
  eapply proj_effect_trans; [|exact Hr].
  apply proj_effect_ApplyOptOut. exact sel_session_release.
Qed.

Lemma device_loop_reading P c l : forall st,
  proj_effect sel (snd st) (snd (fold_left (device_step P c) l st))
              (flat_map (endpoint_reading sel P c) l).
Proof.
  induction l as [|i l IH]; intros st; simpl.
  - apply proj_effect_refl.
  - eapply proj_effect_trans; [apply device_step_reading | apply IH].
Qed.

Lemma SetupForAllRenderDevices_reading P this w :
  proj_effect sel w (snd (SetupForAllRenderDevices P this w))
              (initialize_reading sel P true).
Proof.
  unfold SetupForAllRenderDevices, initialize_reading. cbn [app].
  destruct (co_create_instance P) as [hr [e|]]; [|apply proj_effect_refl].
  destruct (FAILED hr).
  { apply (proj_effect_SafeRelease sel (Some (DeviceEnumerator e))). }
  destruct (enum_audio_endpoints P e) as [hr_enum [c|]].
  2:{ apply (proj_effect_SafeRelease sel (Some (DeviceEnumerator e))). }
  destruct (FAILED hr_enum).
  { cbn [snd app]. eapply proj_effect_trans.
    - apply (proj_effect_SafeRelease sel (Some (DeviceCollection c))).
    - apply (proj_effect_SafeRelease sel (Some (DeviceEnumerator e))). }
  pose proof (device_loop_reading P c (seq 0 (collection_count P c)) (this, w)) as Hl.
  destruct (fold_left (device_step P c) (seq 0 (collection_count P c)) (this, w))
    as [this1 w1].
  cbn [fst snd] in *.
  eapply proj_effect_trans; [|apply (proj_effect_SafeRelease sel (Some (DeviceEnumerator e)))].
  eapply proj_effect_trans; [exact Hl|].
  apply (proj_effect_SafeRelease sel (Some (DeviceCollection c))).
Qed.

Lemma Initialize_reading P this w :
  flat_map sel (events_since w (snd (Initialize P this w)))
  = initialize_reading sel P (com_initialized_ this).
Proof.
  apply proj_effect_calls. unfold Initialize.
  change (initialize_reading sel P (com_initialized_ this))
    with ((if com_initialized_ this then [] else sel EvCoInitializeEx)
          ++ initialize_reading sel P true).
  destruct (com_initialized_ this); cbn [negb].
  - eapply (proj_effect_trans sel _ _ _ [] _ (proj_effect_refl sel w)).
    apply SetupForAllRenderDevices_reading.
  - destruct (SUCCEEDED (co_initialize P));
      [|destruct (co_initialize P =? RPC_E_CHANGED_MODE)%Z];
      (eapply proj_effect_trans;
       [apply proj_effect_log | apply SetupForAllRenderDevices_reading]).
Qed.
End InitializeReading.

(** ** The order of work *)

Lemma flat_map_singleton_map {A B} (f : A -> B) l :
  flat_map (fun a => [f a]) l = map f l.
Proof. induction l as [|a l IH]; cbn; [reflexivity | rewrite IH; reflexivity]. Qed.

Lemma flat_map_nil_fun {A B} (l : list A) : flat_map (fun _ => @nil B) l = [].
Proof. induction l as [|a l IH]; cbn; auto. Qed.

Lemma endpoint_reading_steps P c i :
  endpoint_reading step_of P c i
  = flat_map (fun m => map OptOut (own_sessions P m) ++ [Subscribe m])
             (endpoint_manager P c i).
Proof.
  unfold endpoint_reading, endpoint_manager.
  destruct (collection_item P c i) as [hr [d|]]; [|reflexivity].
  destruct (SUCCEEDED hr); [|reflexivity].
  destruct (activate P d) as [hr_act [m|]]; [|reflexivity].
  destruct (FAILED hr_act); [reflexivity|].
  cbn [step_of flat_map]. rewrite flat_map_singleton_map, !app_nil_r.
  destruct (subscribes P m); rewrite ?app_nil_r; reflexivity.
Qed.

(** X9.  Initialize works endpoint by endpoint.  For each session manager it
    activates, in endpoint order, it first calls SetDuckingPreference on that
    manager's sessions of the current process, in enumeration order, and only
    then subscribes the notifier to that manager, also when there was no
    session to opt out; nothing is opted out after the last subscription. *)
Theorem Initialize_order_of_work :
  forall P this w,
    flat_map step_of (events_since w (snd (Initialize P this w)))
    = flat_map (fun m =>
                  map OptOut (List.filter (owned_by_current P) (examined_sessions P m))
                  ++ [Subscribe m])
               (activated_managers P).
Proof.
  intros P this w.
  rewrite (Initialize_reading step_of) by (intros; repeat split; reflexivity).
  unfold initialize_reading, activated_managers, render_collection.
  assert (Hcom : (if com_initialized_ this then [] else step_of EvCoInitializeEx) = [])
    by (destruct (com_initialized_ this); reflexivity).
  rewrite Hcom. cbn [app].
  destruct (co_create_instance P) as [hr [e|]]; [|reflexivity].
  destruct (FAILED hr); [reflexivity|].
  destruct (enum_audio_endpoints P e) as [hr_enum [c|]]; [|reflexivity].
  destruct (FAILED hr_enum); [reflexivity|].
  cbn [step_of]. rewrite !app_nil_r, flat_map_flat_map.
  apply flat_map_ext. intros i. apply endpoint_reading_steps.
Qed.

Example stub_order_of_work :
  flat_map step_of
    (events_since empty_world (snd (Initialize stub AudioDuckingManager_new empty_world)))
  = [OptOut 100; Subscribe 20; Subscribe 21].
Proof. vm_compute. reflexivity. Qed.

(** ** Endpoint-side pointers *)

Lemma endpoint_reading_releases P c i :
  endpoint_reading endpoint_release P c i = device_pointer P c i.
Proof.
  unfold endpoint_reading, device_pointer.
  destruct (collection_item P c i) as [hr [d|]]; [|reflexivity].
  cbn [snd]. destruct (SUCCEEDED hr); [|reflexivity].
  destruct (activate P d) as [hr_act [m|]]; [|reflexivity].
  destruct (FAILED hr_act); [reflexivity|].
  cbn [endpoint_release]. rewrite flat_map_nil_fun.
  destruct (subscribes P m); reflexivity.
Qed.

(** X10.  The Release calls Initialize makes on the device enumerator, the
    device collection and the devices are exactly one for each such pointer it
    was handed: one per device pointer Item left non-null, in index order
    (also when Item returned a failure code, or Activate failed on that
    device), then the collection, then the enumerator; an enumerator or a
    collection pointer that came with a failure code is released too. *)
Theorem endpoint_side_pointers_released_once :
  forall P this w,
    flat_map endpoint_release (events_since w (snd (Initialize P this w)))
    = endpoint_side_pointers P.
Proof.
  intros P this w.
  rewrite (Initialize_reading endpoint_release) by (intros; repeat split; reflexivity).
  unfold initialize_reading, endpoint_side_pointers.
  assert (Hcom : (if com_initialized_ this then [] else endpoint_release EvCoInitializeEx) = [])
    by (destruct (com_initialized_ this); reflexivity).
  rewrite Hcom. cbn [app].
  destruct (co_create_instance P) as [hr [e|]]; [|reflexivity].
  destruct (FAILED hr); [reflexivity|].
  destruct (enum_audio_endpoints P e) as [hr_enum [c|]]; [|reflexivity].
  destruct (FAILED hr_enum); [reflexivity|].
  cbn [endpoint_release]. do 2 f_equal.
  apply flat_map_ext. intros i. apply endpoint_reading_releases.
Qed.

Example stub_partial_endpoint_releases :
  flat_map endpoint_release
    (events_since empty_world
       (snd (Initialize stub_partial AudioDuckingManager_new empty_world)))
  = [Device 10; Device 11; Device 12; DeviceCollection 2; DeviceEnumerator 1].
Proof. vm_compute. reflexivity. Qed.

(** ** Session-side pointers *)

Lemma proj_effect_SetDuckingPreference {X} (sel : Event -> list X) P s w :
  proj_effect sel w (SetDuckingPreference P s w) (sel (EvSetDuckingPreference s)).
Proof.
  exists [EvSetDuckingPreference s].
  split; [apply trace_SetDuckingPreference | cbn [flat_map]; apply app_nil_r].
Qed.

Lemma proj_effect_fold {X I} (sel : Event -> list X) (f : World -> I -> World)
    (E : I -> list X) :
  (forall w i, proj_effect sel w (f w i) (E i)) ->
  forall l w, proj_effect sel w (fold_left f l w) (flat_map E l).
Proof.
  intros Hf l. induction l as [|i l IH]; intros w; simpl.
  - apply proj_effect_refl.
  - eapply proj_effect_trans; [apply Hf | apply IH].
Qed.

Lemma session_step_releases P e w i :
  proj_effect session_release w (session_step P e w i) (session_pointers P e i).
Proof.
  unfold session_step, session_pointers.
  pose proof (fun s w0 => proj_effect_SetDuckingPreference session_release P s w0) as Hset.
  pose proof (fun p w0 => proj_effect_SafeRelease session_release p w0) as Hrel.
  destruct (get_session P e i) as [hr [s|]]; cbn [fmap option_fmap option_map].
  2:{ apply proj_effect_refl. }
  destruct (SUCCEEDED hr).
  2:{ exact (Hrel (Some (SessionControl s)) w). }
  destruct (query_control2 P s) as [hr_qi c2]. cbn [snd].
  destruct (get_process_id P s) as [hr_pid pid].
  destruct (SUCCEEDED hr_qi), c2, (SUCCEEDED hr_pid), (pid =? current_pid P)%Z;
    cbn [andb];
    first
      [ exact (proj_effect_trans _ _ _ _ _ _
                 (proj_effect_trans _ _ _ _ _ _ (Hset s w)
                    (Hrel (Some (SessionControl2 s)) _))
                 (Hrel (Some (SessionControl s)) _))
      | exact (proj_effect_trans _ _ _ _ _ _ (Hrel (Some (SessionControl2 s)) w)
                 (Hrel (Some (SessionControl s)) _))
      | exact (proj_effect_trans _ _ _ _ _ _ (Hrel None w)
                 (Hrel (Some (SessionControl s)) _)) ].
Qed.

(** X11.  Every session-side pointer the code is handed is released exactly
    once.  The synchronous pass releases, for each index in order, the
    control2 pointer if the query (made only after a successful GetSession)
    left one, also when the query reported failure, then the control pointer
    if GetSession left one, also when GetSession reported failure; and last
    the session enumerator if GetSessionEnumerator left one, also on failure
    of that call or of GetCount.  The callback releases the control2 pointer
    of its session whenever the query left one, and nothing else. *)
Theorem session_side_pointers_released_once :
  (forall P m w,
      flat_map session_release
        (events_since w (ApplyOptOutToExistingSessions P (Some m) w))
      = session_side_pointers P m)
  /\ (forall P s w,
        flat_map session_release
          (events_since w (fst (OnSessionCreated P (Some s) w)))
        = if snd (query_control2 P s) then [SessionControl2 s] else []).
Proof.
  split.
  - intros P m w. apply proj_effect_calls.
    unfold ApplyOptOutToExistingSessions, session_side_pointers.
    destruct (get_session_enumerator P m) as [hr [e|]]; [|apply proj_effect_refl].
    destruct (FAILED hr).
    { apply (proj_effect_SafeRelease session_release (Some (SessionEnumerator e))). }
    destruct (session_count P e) as [hr_count count]. cbn [fst snd].
    destruct (FAILED hr_count).
    { apply (proj_effect_SafeRelease session_release (Some (SessionEnumerator e))). }
    eapply proj_effect_trans;
      [|apply (proj_effect_SafeRelease session_release (Some (SessionEnumerator e)))].
    apply proj_effect_fold. intros w0 i. apply session_step_releases.
  - intros P s w. apply proj_effect_calls. unfold OnSessionCreated.
    pose proof (fun w0 => proj_effect_SetDuckingPreference session_release P s w0) as Hset.
    pose proof (fun p w0 => proj_effect_SafeRelease session_release p w0) as Hrel.
    destruct (query_control2 P s) as [hr_qi c2]. cbn [snd].
    destruct (get_process_id P s) as [hr_pid pid].
    destruct (SUCCEEDED hr_qi), c2, (SUCCEEDED hr_pid), (pid =? current_pid P)%Z;
      cbn [fst];
      first
        [ exact (proj_effect_trans _ _ _ _ _ _ (Hset w)
                   (Hrel (Some (SessionControl2 s)) _))
        | exact (Hrel (Some (SessionControl2 s)) w)
        | exact (Hrel None w)
        | apply proj_effect_refl ].
Qed.

Example stub_session_releases :
  flat_map session_release
    (events_since empty_world (ApplyOptOutToExistingSessions stub (Some 20) empty_world))
  = [SessionControl2 100; SessionControl 100; SessionControl2 101; SessionControl 101;
     SessionEnumerator 30].
Proof. vm_compute. reflexivity. Qed.
